(** * large_file_splitter: a shallow embedding of [large_file_splitter.py]

    The script compresses every file larger than one mebibyte into a
    single-entry zip container, cuts the container into numbered chunk
    files stored in a sibling [<name>.dir] directory, and (in recover
    mode) glues the chunks back together and extracts the container.

    The embedding follows the script function by function:
    - Python [str] values are [string]s, file contents are [list byte];
    - a [pathlib.Path] is the list of its components, root first;
    - the filesystem is a finite map from paths to nodes, threaded
      together with the standard output through a state-and-exception
      monad [M];
    - the [zipfile] module is an interface ([ZipFile]) with two laws: a
      container is not empty, and extracting a freshly written
      single-entry container gives the entry back;
    - the walk of the directory tree ([Path.rglob]) is lazy and sees
      what the loop body creates, so [scan_directory] takes the
      sequence of paths the walk yields as an argument. *)

From Stdlib Require Import ZArith NArith Ascii String Decimal DecimalString DecimalN.
From Stdlib Require Import Sorting.Sorted.
From Stdlib Require Import Init.Byte.
From stdpp Require Import base tactics option list gmap strings sorting.

Local Open Scope Z_scope.

(** ** Python strings *)

Module Str.

(** [s.endswith(suf)] *)
Fixpoint endswith (s suf : string) : bool :=
  String.eqb s suf ||
  match s with
  | EmptyString => false
  | String _ s' => endswith s' suf
  end.

(** [s[:n]] for a non-negative [n] *)
Fixpoint take (n : nat) (s : string) : string :=
  match n, s with
  | S n', String a s' => String a (take n' s')
  | _, _ => EmptyString
  end.

(** [s[n:]] for a non-negative [n] *)
Fixpoint drop (n : nat) (s : string) : string :=
  match n, s with
  | S n', String _ s' => drop n' s'
  | _, _ => s
  end.

(** [s[:-n]] for a positive [n] *)
Definition drop_last (n : nat) (s : string) : string :=
  take (String.length s - n) s.

(** [s.rfind(c)], with [None] for Python's [-1] *)
Fixpoint rfind (c : ascii) (s : string) : option nat :=
  match s with
  | EmptyString => None
  | String a s' =>
      match rfind c s' with
      | Some i => Some (S i)
      | None => if Ascii.eqb a c then Some 0%nat else None
      end
  end.

(** membership of a character, [c in s] *)
Fixpoint mem (c : ascii) (s : string) : bool :=
  match s with
  | EmptyString => false
  | String a s' => Ascii.eqb a c || mem c s'
  end.

(** The characters [str.strip()] removes, within ASCII. *)
Definition is_space (c : ascii) : bool :=
  let n := N_of_ascii c in
  ((9 <=? n) && (n <=? 13) || (28 <=? n) && (n <=? 32))%N.

Fixpoint lstrip (s : string) : string :=
  match s with
  | EmptyString => EmptyString
  | String a s' => if is_space a then lstrip s' else s
  end.

Fixpoint rstrip (s : string) : string :=
  match s with
  | EmptyString => EmptyString
  | String a s' =>
      match rstrip s' with
      | EmptyString => if is_space a then EmptyString else String a EmptyString
      | r => String a r
      end
  end.

Definition strip (s : string) : string := rstrip (lstrip s).

(** [str(n)] for a non-negative integer *)
Definition of_N (n : N) : string := NilEmpty.string_of_uint (N.to_uint n).

(** The digits of an integer literal as [int()] reads them: decimal
    digits, where single underscores may separate two digits. *)
Fixpoint int_digits (prev_is_digit : bool) (s : string) : option uint :=
  match s with
  | EmptyString => if prev_is_digit then Some Nil else None
  | String a s' =>
      if Ascii.eqb a "_"
      then (if prev_is_digit then int_digits false s' else None)
      else uint_of_char a (int_digits true s')
  end.

(** [int(s)]: surrounding whitespace is dropped, one sign is allowed;
    [None] stands for [ValueError]. *)
Definition int (s : string) : option Z :=
  let t := strip s in
  match t with
  | String c r =>
      if Ascii.eqb c "+" then (λ u, Z.of_N (N.of_uint u)) <$> int_digits false r
      else if Ascii.eqb c "-" then (λ u, - Z.of_N (N.of_uint u)) <$> int_digits false r
      else (λ u, Z.of_N (N.of_uint u)) <$> int_digits false t
  | EmptyString => None
  end.

(** [str(z)] for a Python integer *)
Definition of_Z (z : Z) : string :=
  if z <? 0 then String "-" (of_N (Z.abs_N z)) else of_N (Z.to_N z).

(** [sep.join(parts)] *)
Fixpoint join (sep : string) (parts : list string) : string :=
  match parts with
  | [] => EmptyString
  | [s] => s
  | s :: rest => s +:+ sep +:+ join sep rest
  end.

End Str.

(** ** Shell-style patterns ([fnmatch.translate], used by [Path.glob])

    A pattern is cut into tokens the way [fnmatch.translate] reads it,
    and a name matches when the tokens consume it entirely.  Matching
    is case-sensitive, as on POSIX systems. *)

Module Fnmatch.

Inductive token :=
  | Star                                   (* [*]  : any run of characters *)
  | Any                                    (* [?]  : one character *)
  | Lit (c : ascii)                        (* a character standing for itself *)
  | OneOf (negated : bool) (ranges : list (ascii * ascii)).   (* [[...]] *)

(** The text of a bracket expression up to its closing bracket, and
    what follows the bracket. *)
Fixpoint until_rbracket (s : string) : option (string * string) :=
  match s with
  | EmptyString => None
  | String c s' =>
      if Ascii.eqb c "]" then Some (EmptyString, s')
      else match until_rbracket s' with
           | Some (stuff, rest) => Some (String c stuff, rest)
           | None => None
           end
  end.

(** After an opening bracket: an optional [!], an optional literal
    closing bracket, then everything up to the next closing bracket.
    [None] when the bracket is never closed. *)
Definition bracket (s : string) : option (bool * string * string) :=
  let '(negated, s1) :=
    match s with
    | String c t => if Ascii.eqb c "!" then (true, t) else (false, s)
    | EmptyString => (false, s)
    end in
  match s1 with
  | String c t =>
      if Ascii.eqb c "]"
      then match until_rbracket t with
           | Some (stuff, rest) => Some (negated, String c stuff, rest)
           | None => None
           end
      else match until_rbracket s1 with
           | Some (stuff, rest) => Some (negated, stuff, rest)
           | None => None
           end
  | EmptyString => None
  end.

(** The members of a bracket expression: [x-y] is a range when a
    character follows the hyphen, any other character is itself. *)
Fixpoint ranges (stuff : string) : list (ascii * ascii) :=
  match stuff with
  | EmptyString => []
  | String x s1 =>
      match s1 with
      | String d (String y r) =>
          if Ascii.eqb d "-" then (x, y) :: ranges r else (x, x) :: ranges s1
      | _ => (x, x) :: ranges s1
      end
  end.

Fixpoint tokens (fuel : nat) (pat : string) : list token :=
  match fuel, pat with
  | S fuel', String c p =>
      if Ascii.eqb c "*" then Star :: tokens fuel' p
      else if Ascii.eqb c "?" then Any :: tokens fuel' p
      else if Ascii.eqb c "["
      then match bracket p with
           | Some (negated, stuff, rest) =>
               OneOf negated (ranges stuff) :: tokens fuel' rest
           | None => Lit c :: tokens fuel' p
           end
      else Lit c :: tokens fuel' p
  | _, _ => []
  end.

(** One pattern position consumes at most the whole remaining pattern,
    so the length of the pattern is fuel enough (lemma [tokens_fuel]). *)
Definition translate (pat : string) : list token :=
  tokens (String.length pat) pat.

Definition in_range (c : ascii) (r : ascii * ascii) : bool :=
  ((N_of_ascii r.1 <=? N_of_ascii c) && (N_of_ascii c <=? N_of_ascii r.2))%N.

Definition token_char (t : token) (c : ascii) : bool :=
  match t with
  | Star | Any => true
  | Lit a => Ascii.eqb a c
  | OneOf negated rs => xorb negated (existsb (in_range c) rs)
  end.

(** [re.fullmatch] of the translated pattern *)
Fixpoint fullmatch (ts : list token) : string → bool :=
  match ts with
  | [] => λ s, match s with EmptyString => true | _ => false end
  | Star :: ts' =>
      let rest := fullmatch ts' in
      fix star (s : string) : bool :=
        rest s || match s with
                  | EmptyString => false
                  | String _ s' => star s'
                  end
  | t :: ts' =>
      λ s, match s with
           | EmptyString => false
           | String c s' => token_char t c && fullmatch ts' s'
           end
  end.

(** [fnmatch.fnmatchcase(name, pat)] *)
Definition fnmatchcase (name pat : string) : bool :=
  fullmatch (translate pat) name.

End Fnmatch.

(** ** Paths ([pathlib.PurePath]) *)

Abbreviation path := (list string).

Module Path.

(** [p.parent]; the root is its own parent *)
Definition parent (p : path) : path := removelast p.

(** [p.name]; empty for the root *)
Definition name (p : path) : string := List.last p EmptyString.

(** [p.parts] without the anchor, which never ends in [.dir] *)
Definition parts (p : path) : list string := p.

(** [p / s] for a single component [s]; an empty or [.] component
    leaves the path as it is. *)
Definition joinpath (p : path) (s : string) : path :=
  if String.eqb s "" || String.eqb s "." then p else p ++ [s].

(** [str(p)] *)
Definition str (p : path) : string := "/" +:+ Str.join "/" p.

(** [PurePath.suffix] of a file name, as [pathlib] has defined it up
    to Python 3.12: the last dot and what follows, unless that dot is
    the first or the last character of the name. *)
Definition suffix_of_name (n : string) : string :=
  match Str.rfind "." n with
  | Some i =>
      if (0 <? i)%nat && (i <? String.length n - 1)%nat
      then Str.drop i n else EmptyString
  | None => EmptyString
  end.

Definition suffix (p : path) : string := suffix_of_name (name p).

(** [p.with_suffix('')] *)
Definition with_suffix_empty (p : path) : path :=
  match suffix p with
  | EmptyString => p
  | suf => parent p ++ [Str.drop_last (String.length suf) (name p)]
  end.

End Path.

(** ** The filesystem and the standard output *)

Inductive node :=
  | File (data : list byte)
  | Dir.

Record state := State {
  fs : gmap path node;
  stdout : list string
}.

Inductive exn :=
  | FileNotFoundError (p : path)
  | FileExistsError (p : path)
  | NotADirectoryError (p : path)
  | IsADirectoryError (p : path)
  | ValueError (msg : string)
  | BadZipFile.

Definition exn_str (e : exn) : string :=
  match e with
  | FileNotFoundError p => "[Errno 2] No such file or directory: '" +:+ Path.str p +:+ "'"
  | FileExistsError p => "[Errno 17] File exists: '" +:+ Path.str p +:+ "'"
  | NotADirectoryError p => "[Errno 20] Not a directory: '" +:+ Path.str p +:+ "'"
  | IsADirectoryError p => "[Errno 21] Is a directory: '" +:+ Path.str p +:+ "'"
  | ValueError msg => msg
  | BadZipFile => "File is not a zip file"
  end.

Inductive result (A : Type) :=
  | Ok (a : A)
  | Raise (e : exn).
Arguments Ok {A} a.
Arguments Raise {A} e.

(** A computation reads and updates the state, and returns a value or
    raises; the state reached when it raises is kept. *)
Definition M (A : Type) : Type := state → state * result A.

Definition ret {A} (a : A) : M A := λ σ, (σ, Ok a).

Definition bind {A B} (m : M A) (k : A → M B) : M B :=
  λ σ, match m σ with
       | (σ', Ok a) => k a σ'
       | (σ', Raise e) => (σ', Raise e)
       end.

Definition raise {A} (e : exn) : M A := λ σ, (σ, Raise e).

(** [try: m  except Exception as e: h e] *)
Definition try_except {A} (m : M A) (h : exn → M A) : M A :=
  λ σ, match m σ with
       | (σ', Raise e) => h e σ'
       | r => r
       end.

#[global] Instance M_ret : MRet M := @ret.
#[global] Instance M_bind : MBind M := λ A B k m, bind m k.

Definition when (b : bool) (m : M unit) : M unit := if b then m else ret tt.

(** [for x in xs: body x] *)
Fixpoint for_each {A} (xs : list A) (body : A → M unit) : M unit :=
  match xs with
  | [] => ret tt
  | x :: xs' => body x ;; for_each xs' body
  end.

Definition print (line : string) : M unit :=
  λ σ, (State (fs σ) (stdout σ ++ [line]), Ok tt).

Definition get_fs : M (gmap path node) := λ σ, (σ, Ok (fs σ)).

Definition put_fs (m : gmap path node) : M unit :=
  λ σ, (State m (stdout σ), Ok tt).

(** *** Queries *)

Definition fs_is_dir (m : gmap path node) (p : path) : bool :=
  match m !! p with Some Dir => true | _ => false end.

Definition fs_exists (m : gmap path node) (p : path) : bool :=
  match m !! p with Some _ => true | None => false end.

(** The entries of directory [d], in the order the map lists them (the
    operating system promises no particular order). *)
Definition children (m : gmap path node) (d : path) : list path :=
  filter (λ p, p ≠ [] ∧ Path.parent p = d) (map_to_list m).*1.

(** Size a directory reports for itself; it stays under every
    threshold of the script. *)
Definition DIR_ST_SIZE : Z := 4096.

(** [p.is_dir()] *)
Definition is_dir (p : path) : M bool :=
  m ← get_fs; mret (fs_is_dir m p).

(** [p.exists()] *)
Definition exists_ (p : path) : M bool :=
  m ← get_fs; mret (fs_exists m p).

(** [p.stat().st_size] *)
Definition stat_st_size (p : path) : M Z :=
  m ← get_fs;
  match m !! p with
  | Some (File data) => mret (Z.of_nat (length data))
  | Some Dir => mret DIR_ST_SIZE
  | None => raise (FileNotFoundError p)
  end.

(** [d.glob(pat)] for a pattern of one component: the entries of [d]
    whose name matches; nothing when [d] is not a directory. *)
Definition matching_children (m : gmap path node) (d : path) (pat : string) : list path :=
  filter (λ p, Fnmatch.fnmatchcase (Path.name p) pat = true) (children m d).

Definition fs_glob (m : gmap path node) (d : path) (pat : string) : list path :=
  if fs_is_dir m d then matching_children m d pat else [].

Definition glob (d : path) (pat : string) : M (list path) :=
  m ← get_fs; mret (fs_glob m d pat).

(** *** Updates *)

(** Creating an entry needs its parent to be a directory. *)
Definition check_parent (p : path) : M unit :=
  m ← get_fs;
  match m !! Path.parent p with
  | Some Dir => mret tt
  | Some (File _) => raise (NotADirectoryError p)
  | None => raise (FileNotFoundError p)
  end.

(** [open(p, 'wb')]: the file is created, or emptied when it exists. *)
Definition open_wb (p : path) : M unit :=
  m ← get_fs;
  match m !! p with
  | Some Dir => raise (IsADirectoryError p)
  | _ => check_parent p ;; put_fs (<[p := File []]> m)
  end.

(** Writing to a file opened for writing appends to what it holds. *)
Definition write (p : path) (data : list byte) : M unit :=
  m ← get_fs;
  match m !! p with
  | Some (File old) => put_fs (<[p := File (old ++ data)]> m)
  | Some Dir => raise (IsADirectoryError p)
  | None => raise (FileNotFoundError p)
  end.

(** [with open(p, 'rb') as f: f.read()] *)
Definition read_bytes (p : path) : M (list byte) :=
  m ← get_fs;
  match m !! p with
  | Some (File data) => mret data
  | Some Dir => raise (IsADirectoryError p)
  | None => raise (FileNotFoundError p)
  end.

(** [p.mkdir(exist_ok=True)] *)
Definition mkdir_exist_ok (p : path) : M unit :=
  m ← get_fs;
  match m !! p with
  | Some Dir => mret tt
  | Some (File _) => raise (FileExistsError p)
  | None => check_parent p ;; put_fs (<[p := Dir]> m)
  end.

(** [p.unlink()] *)
Definition unlink (p : path) : M unit :=
  m ← get_fs;
  match m !! p with
  | Some (File _) => put_fs (delete p m)
  | Some Dir => raise (IsADirectoryError p)
  | None => raise (FileNotFoundError p)
  end.

(** [shutil.rmtree(d)]: the directory goes with everything below it. *)
Definition rmtree (d : path) : M unit :=
  m ← get_fs;
  match m !! d with
  | Some Dir => put_fs (filter (λ kv, ¬ d `prefix_of` kv.1) m)
  | Some (File _) => raise (NotADirectoryError d)
  | None => raise (FileNotFoundError d)
  end.

(** ** The [zipfile] module *)

(** A container format: [zip_write arcname data] is the bytes of a
    container holding the single entry [arcname]; [zip_read] lists the
    entries of a container, or fails ([BadZipFile]).  A container is
    never empty (a zip file ends with a directory record), and reading
    a container just written gives its entry back. *)
Class ZipFile := {
  zip_write : string → list byte → list byte;
  zip_read : list byte → option (list (string * list byte));
  zip_nonempty : ∀ arcname data, zip_write arcname data ≠ [];
  zip_round_trip : ∀ arcname data,
    zip_read (zip_write arcname data) = Some [(arcname, data)]
}.

(** ** The script *)

Definition MAX_SIZE : Z := 1024 * 1024.
Definition CHUNK_SIZE : Z := 1024 * 1024.

(** [f.read(n)] on the bytes not yet read: what is read, and what is
    left.  A negative [n] reads everything. *)
Definition f_read (n : Z) (f : list byte) : list byte * list byte :=
  if n <? 0 then (f, []) else (take (Z.to_nat n) f, drop (Z.to_nat n) f).

(** [output_dir / f"{zip_path.name}.{chunk_num}"] *)
Definition chunk_path (zip_path output_dir : path) (chunk_num : Z) : path :=
  Path.joinpath output_dir (Path.name zip_path +:+ "." +:+ Str.of_Z chunk_num).

(** The [while True] loop of [split_file]; [f] is what is left of the
    open file.  Every turn but the last consumes at least one byte, so
    one turn more than the number of bytes always reaches the [break]
    (lemma [split_loop_fuel]). *)
Fixpoint split_loop (fuel : nat) (zip_path output_dir : path)
    (max_chunk_size : Z) (verbose : bool) (f : list byte) (chunk_num : Z) : M unit :=
  match fuel with
  | O => mret tt
  | S fuel' =>
      let '(chunk, f') := f_read max_chunk_size f in
      match chunk with
      | [] => mret tt
      | _ =>
          let chunk_path := chunk_path zip_path output_dir chunk_num in
          open_wb chunk_path ;;
          write chunk_path chunk ;;
          when verbose
            (print ("  Created chunk: " +:+ Path.str chunk_path +:+ " (" +:+
                    Str.of_Z (Z.of_nat (length chunk)) +:+ " bytes)")) ;;
          split_loop fuel' zip_path output_dir max_chunk_size verbose f' (chunk_num + 1)
      end
  end.

Definition split_file (zip_path output_dir : path)
    (max_chunk_size : Z) (verbose : bool) : M unit :=
  f ← read_bytes zip_path;
  split_loop (S (length f)) zip_path output_dir max_chunk_size verbose f 1.

(** [sorted(xs, key=key)]: all keys are computed first, in order, and a
    key that raises stops the sort; equal keys keep their order. *)
Fixpoint insert_by_key {A} (k : Z) (x : A) (l : list (Z * A)) : list (Z * A) :=
  match l with
  | [] => [(k, x)]
  | (k', y) :: l' =>
      if k <=? k' then (k, x) :: l else (k', y) :: insert_by_key k x l'
  end.

Definition insertion_sort {A} (l : list (Z * A)) : list (Z * A) :=
  foldr (λ kx acc, insert_by_key kx.1 kx.2 acc) [] l.

Fixpoint keyed {A} (key : A → M Z) (xs : list A) : M (list (Z * A)) :=
  match xs with
  | [] => mret []
  | x :: xs' => k ← key x; l ← keyed key xs'; mret ((k, x) :: l)
  end.

Definition sorted {A} (xs : list A) (key : A → M Z) : M (list A) :=
  l ← keyed key xs; mret (insertion_sort l).*2.

(** The number a chunk file carries after its last dot, when [int()]
    can read it. *)
Definition chunk_number (x : path) : option Z :=
  Str.int (Str.drop 1 (Path.suffix x)).

(** [int(x.suffix[1:])] *)
Definition chunk_key (x : path) : M Z :=
  let s := Str.drop 1 (Path.suffix x) in
  match Str.int s with
  | Some n => mret n
  | None => raise (ValueError ("invalid literal for int() with base 10: '" +:+ s +:+ "'"))
  end.

(** Lines 79-80 of the script: the chunks of [dir_path], by number. *)
Definition find_chunks (dir_path : path) (original_name : string) : M (list path) :=
  found ← glob dir_path (original_name +:+ ".zip.*");
  sorted found chunk_key.

(** Lines 88-93: the chunks are copied one after the other into a new
    file [zip_path]. *)
Definition concatenate (zip_path : path) (zip_chunks : list path) (verbose : bool) : M unit :=
  open_wb zip_path ;;
  for_each zip_chunks (λ chunk,
    when verbose (print ("  Concatenating " +:+ Path.name chunk)) ;;
    data ← read_bytes chunk;
    write zip_path data).

Section Script.

Context `{ZipFile}.

(** [with zipfile.ZipFile(zip_path, 'w', zipfile.ZIP_DEFLATED) as zipf:
      zipf.write(file_path, arcname)] *)
Definition zip_create (zip_path file_path : path) (arcname : string) : M unit :=
  open_wb zip_path ;;
  data ← read_bytes file_path;
  write zip_path (zip_write arcname data).

(** Where [extractall] puts a member: names that are empty or stand
    for a directory itself are reduced to the target directory. *)
Definition extract_target (target_dir : path) (member : string) : path :=
  if String.eqb member "" || String.eqb member "." || String.eqb member ".."
  then target_dir else target_dir ++ [member].

(** [with zipfile.ZipFile(zip_path, 'r') as zipf:
      zipf.extractall(target_dir)] *)
Definition extractall (zip_path target_dir : path) : M unit :=
  data ← read_bytes zip_path;
  match zip_read data with
  | None => raise BadZipFile
  | Some members =>
      for_each members (λ member,
        let target := extract_target target_dir member.1 in
        open_wb target ;;
        write target member.2)
  end.

Definition compress_and_split (file_path : path) (auto_remove verbose : bool) : M unit :=
  file_size ← stat_st_size file_path;
  if file_size <=? MAX_SIZE then
    when verbose
      (print ("Skipping " +:+ Path.str file_path +:+ " (size: " +:+
              Str.of_Z file_size +:+ " bytes <= 1MB)"))
  else
    print ("Processing " +:+ Path.str file_path +:+ " (size: " +:+
           Str.of_Z file_size +:+ " bytes)") ;;
    let dir_name := Path.joinpath (Path.parent file_path) (Path.name file_path +:+ ".dir") in
    mkdir_exist_ok dir_name ;;
    when verbose (print ("  Created directory: " +:+ Path.str dir_name)) ;;
    let zip_path := Path.joinpath (Path.parent file_path) (Path.name file_path +:+ ".zip") in
    zip_create zip_path file_path (Path.name file_path) ;;
    when verbose
      (zip_size ← stat_st_size zip_path;
       print ("  Compressed to: " +:+ Path.str zip_path +:+ " (" +:+
              Str.of_Z zip_size +:+ " bytes)")) ;;
    split_file zip_path dir_name CHUNK_SIZE verbose ;;
    unlink zip_path ;;
    when verbose (print ("  Removed temporary zip: " +:+ Path.str zip_path)) ;;
    when auto_remove
      (unlink file_path ;;
       when verbose (print ("  Removed original file: " +:+ Path.str file_path))).

Definition recover_file (dir_path : path) (auto_remove verbose : bool) : M unit :=
  let dir_name := Path.name dir_path in
  if negb (Str.endswith dir_name ".dir") then mret tt
  else
    let original_name := Str.drop_last 4 dir_name in
    let original_path := Path.joinpath (Path.parent dir_path) original_name in
    print ("Recovering " +:+ original_name +:+ " from " +:+ Path.str dir_path) ;;
    zip_chunks ← find_chunks dir_path original_name;
    match zip_chunks with
    | [] => print ("  Warning: No split files found in " +:+ Path.str dir_path)
    | _ =>
        let zip_path := Path.joinpath (Path.parent dir_path) (original_name +:+ ".zip") in
        concatenate zip_path zip_chunks verbose ;;
        when verbose
          (zip_size ← stat_st_size zip_path;
           print ("  Created: " +:+ Path.str zip_path +:+ " (" +:+
                  Str.of_Z zip_size +:+ " bytes)")) ;;
        extractall zip_path (Path.parent dir_path) ;;
        when verbose (print ("  Extracted to: " +:+ Path.str original_path)) ;;
        unlink zip_path ;;
        when verbose (print ("  Removed temporary zip: " +:+ Path.str zip_path)) ;;
        when auto_remove
          (rmtree dir_path ;;
           when verbose (print ("  Removed directory: " +:+ Path.str dir_path)))
    end.

(** One turn of the recover loop of [scan_directory]. *)
Definition scan_recover_item (auto_remove verbose : bool) (item : path) : M unit :=
  d ← is_dir item;
  if (d : bool) then
    try_except (recover_file item auto_remove verbose)
      (λ e, print ("Error recovering from " +:+ Path.str item +:+ ": " +:+ exn_str e))
  else mret tt.

(** One turn of the split loop of [scan_directory]. *)
Definition scan_split_item (auto_remove verbose : bool) (item : path) : M unit :=
  d ← is_dir item;
  if (d : bool) then mret tt
  else if existsb (λ part, Str.endswith part ".dir") (Path.parts item) then mret tt
  else
    is_temporary ←
      (if String.eqb (Path.suffix item) ".zip"
       then exists_ (Path.with_suffix_empty item) else mret false);
    if (is_temporary : bool) then mret tt
    else if String.eqb (Path.name item) "large_file_splitter.py" then mret tt
    else
      try_except (compress_and_split item auto_remove verbose)
        (λ e, print ("Error processing " +:+ Path.str item +:+ ": " +:+ exn_str e)).

(** [scan_directory]: [items] is the sequence of paths the walk of the
    tree yields, [root_path.rglob('*.dir')] in recover mode and
    [root_path.rglob('*')] otherwise. *)
Definition scan_directory (items : list path)
    (recover_mode auto_remove verbose : bool) : M unit :=
  if recover_mode
  then for_each items (scan_recover_item auto_remove verbose)
  else for_each items (scan_split_item auto_remove verbose).

Record args := Args {
  recover : bool;
  auto_remove : bool;
  verbose : bool
}.

Definition dashes : string :=
  "------------------------------------------------------------".

(** [main], after the command line is parsed into [a]; [current_dir]
    is [os.getcwd()]. *)
Definition main (a : args) (current_dir : path) (items : list path) : M unit :=
  print ("Scanning directory: " +:+ Path.str current_dir) ;;
  (if recover a then
     print "Mode: RECOVER" ;;
     when (auto_remove a)
       (print "Auto-remove: ENABLED (.dir directories will be deleted after recovery)")
   else
     print "Mode: COMPRESS AND SPLIT" ;;
     print ("Maximum file size: " +:+ Str.of_Z MAX_SIZE +:+ " bytes (1 MByte)") ;;
     when (auto_remove a)
       (print "Auto-remove: ENABLED (original files will be deleted after splitting)")
   : M unit) ;;
  when (verbose a) (print "Verbose: ENABLED") ;;
  print dashes ;;
  scan_directory items (recover a) (auto_remove a) (verbose a) ;;
  print dashes ;;
  print "Done!".

End Script.

(** ** A container format that stores its entry as it is

    The name length in unary, a zero byte, the name, the data.  It shows
    that the [ZipFile] interface can be met, and lets the script run on
    concrete filesystems. *)

Module Stored.

Definition write (arcname : string) (data : list byte) : list byte :=
  repeat x01 (String.length arcname) ++ x00 :: list_byte_of_string arcname ++ data.

Fixpoint header (n : nat) (l : list byte) : option (nat * list byte) :=
  match l with
  | [] => None
  | b :: l' =>
      if Byte.eqb b x00 then Some (n, l')
      else if Byte.eqb b x01 then header (S n) l'
      else None
  end.

Definition read (l : list byte) : option (list (string * list byte)) :=
  match header 0 l with
  | Some (n, rest) => Some [(string_of_list_byte (take n rest), drop n rest)]
  | None => None
  end.

End Stored.

Definition stored_zip : ZipFile.
Proof.
  refine {| zip_write := Stored.write; zip_read := Stored.read |}.
  { intros arcname data. unfold Stored.write. by destruct (repeat _ _). }
  intros arcname data. unfold Stored.read, Stored.write.
  assert (∀ n k rest,
    Stored.header k (repeat x01 n ++ x00 :: rest) = Some ((k + n)%nat, rest)) as Hheader.
  { induction n as [|n IH]; intros k rest; simpl.
    - by rewrite Nat.add_0_r.
    - by rewrite IH, Nat.add_succ_r. }
  assert (length (list_byte_of_string arcname) = String.length arcname) as Hlen.
  { unfold list_byte_of_string. rewrite length_map.
    induction arcname as [|c s IH]; simpl; [done | by rewrite IH]. }
  rewrite Hheader. simpl. rewrite <- Hlen, take_app_length, drop_app_length.
  by rewrite string_of_list_byte_of_string.
Defined.

(** ** Small filesystems to run the script on *)

Module Demo.

(** One byte more than the threshold. *)
Definition big : list byte := repeat x41 (Z.to_nat (MAX_SIZE + 1)).

Definition small : list byte := [x68; x69].

Definition tree (entries : list (path * node)) : state :=
  State (list_to_map (([], Dir) :: (["data"], Dir) :: entries)) [].

(** A file above the threshold, alone in its directory. *)
Definition big_file : state := tree [(["data"; "big.bin"], File big)].

(** The same file next to a chunk directory left from before, in
    which a file carries no number. *)
Definition stale : state :=
  tree [(["data"; "big.bin"], File big);
        (["data"; "big.bin.dir"], Dir);
        (["data"; "big.bin.dir"; "big.bin.zip.bak"], File small)].

(** [big_file] once split, the source kept. *)
Definition split_done : state :=
  (@compress_and_split stored_zip ["data"; "big.bin"] false false big_file).1.

(** A container of ten bytes next to an empty directory. *)
Definition ten : state :=
  tree [(["data"; "a.zip"],
         File [x30; x31; x32; x33; x34; x35; x36; x37; x38; x39]);
        (["data"; "a.dir"], Dir)].

(** A file under the threshold. *)
Definition notes : state := tree [(["data"; "notes.txt"], File small)].

(** A chunk directory that holds nothing. *)
Definition empty_dir : state := tree [(["data"; "photo.png.dir"], Dir)].

(** A chunk directory with a file that carries no number. *)
Definition stray : state :=
  tree [(["data"; "photo.png.dir"], Dir);
        (["data"; "photo.png.dir"; "photo.png.zip.bak"], File small)].

(** Chunks [.2], [.10] and [.1], holding [b], [c] and [a]. *)
Definition numbered : state :=
  tree [(["data"; "photo.png.dir"], Dir);
        (["data"; "photo.png.dir"; "photo.png.zip.2"], File [x62]);
        (["data"; "photo.png.dir"; "photo.png.zip.10"], File [x63]);
        (["data"; "photo.png.dir"; "photo.png.zip.1"], File [x61])].

(** A file above the threshold whose name has glob characters. *)
Definition glob_named : state := tree [(["data"; "a[1]"], File big)].

(** A regular file above the threshold whose own name ends in
    [.dir], in a directory whose name does not. *)
Definition dir_named_file : state := tree [(["data"; "big.dir"], File big)].

End Demo.

(** ** The orchestrators past their guards *)

Section Steps.

Context `{ZipFile}.

(** Steps 2-6 of the split: what [compress_and_split] does with a
    file of [file_size] bytes once the size test has let it through. *)
Definition split_steps (file_path : path) (file_size : Z)
    (auto_remove verbose : bool) : M unit :=
  print ("Processing " +:+ Path.str file_path +:+ " (size: " +:+
         Str.of_Z file_size +:+ " bytes)") ;;
  let dir_name := Path.joinpath (Path.parent file_path) (Path.name file_path +:+ ".dir") in
  mkdir_exist_ok dir_name ;;
  when verbose (print ("  Created directory: " +:+ Path.str dir_name)) ;;
  let zip_path := Path.joinpath (Path.parent file_path) (Path.name file_path +:+ ".zip") in
  zip_create zip_path file_path (Path.name file_path) ;;
  when verbose
    (zip_size ← stat_st_size zip_path;
     print ("  Compressed to: " +:+ Path.str zip_path +:+ " (" +:+
            Str.of_Z zip_size +:+ " bytes)")) ;;
  split_file zip_path dir_name CHUNK_SIZE verbose ;;
  unlink zip_path ;;
  when verbose (print ("  Removed temporary zip: " +:+ Path.str zip_path)) ;;
  when auto_remove
    (unlink file_path ;;
     when verbose (print ("  Removed original file: " +:+ Path.str file_path))).

(** Steps 3-6 of the recovery: what [recover_file] does with the
    chunks it found. *)
Definition recover_steps (dir_path : path) (zip_chunks : list path)
    (auto_remove verbose : bool) : M unit :=
  let original_name := Str.drop_last 4 (Path.name dir_path) in
  let original_path := Path.joinpath (Path.parent dir_path) original_name in
  let zip_path := Path.joinpath (Path.parent dir_path) (original_name +:+ ".zip") in
  concatenate zip_path zip_chunks verbose ;;
  when verbose
    (zip_size ← stat_st_size zip_path;
     print ("  Created: " +:+ Path.str zip_path +:+ " (" +:+
            Str.of_Z zip_size +:+ " bytes)")) ;;
  extractall zip_path (Path.parent dir_path) ;;
  when verbose (print ("  Extracted to: " +:+ Path.str original_path)) ;;
  unlink zip_path ;;
  when verbose (print ("  Removed temporary zip: " +:+ Path.str zip_path)) ;;
  when auto_remove
    (rmtree dir_path ;;
     when verbose (print ("  Removed directory: " +:+ Path.str dir_path))).

(** The container of a file or of a chunk directory. *)
Definition zip_path_of_file (file_path : path) : path :=
  Path.joinpath (Path.parent file_path) (Path.name file_path +:+ ".zip").

Definition dir_name_of_file (file_path : path) : path :=
  Path.joinpath (Path.parent file_path) (Path.name file_path +:+ ".dir").

Definition original_name_of_dir (dir_path : path) : string :=
  Str.drop_last 4 (Path.name dir_path).

Definition zip_path_of_dir (dir_path : path) : path :=
  Path.joinpath (Path.parent dir_path) (original_name_of_dir dir_path +:+ ".zip").

(** The first line [recover_file] prints. *)
Definition recovering_line (dir_path : path) : string :=
  "Recovering " +:+ original_name_of_dir dir_path +:+ " from " +:+ Path.str dir_path.

End Steps.

(** A file name that is not empty and does not stand for a directory. *)
Definition valid_name (s : string) : bool :=
  negb (String.eqb s "" || String.eqb s "." || String.eqb s "..").

(** ** Vocabulary for the scanner *)

Section Scanner.

Context `{ZipFile}.

(** The guards of the split loop: directories, entries with a
    component ending in [.dir], temporary containers, the script. *)
Definition split_mode_skips (m : gmap path node) (item : path) : bool :=
  fs_is_dir m item ||
  existsb (λ part, Str.endswith part ".dir") (Path.parts item) ||
  (String.eqb (Path.suffix item) ".zip" && fs_exists m (Path.with_suffix_empty item)) ||
  String.eqb (Path.name item) "large_file_splitter.py".

(** Whether the loop hands [item] to its orchestrator. *)
Definition dispatched (recover_mode : bool) (m : gmap path node) (item : path) : bool :=
  if recover_mode then fs_is_dir m item else negb (split_mode_skips m item).

Definition orchestrate (recover_mode auto_remove verbose : bool) (item : path) : M unit :=
  if recover_mode
  then recover_file item auto_remove verbose
  else compress_and_split item auto_remove verbose.

Definition error_line (recover_mode : bool) (item : path) (e : exn) : string :=
  (if recover_mode then "Error recovering from " else "Error processing ") +:+
  Path.str item +:+ ": " +:+ exn_str e.

(** One turn of the loop of [scan_directory]. *)
Definition scan_item (recover_mode auto_remove verbose : bool) : path → M unit :=
  if recover_mode
  then scan_recover_item auto_remove verbose
  else scan_split_item auto_remove verbose.

End Scanner.

(** A computation that always returns. *)
Definition never_raises (m : M unit) : Prop :=
  ∀ σ, ∃ σ', m σ = (σ', Ok tt).

(** ** Vocabulary for effects on the filesystem *)

(** Whatever way [m] ends, the filesystems before and after it are
    related by [R]. *)
Definition fs_rel (R : relation (gmap path node)) {A} (m : M A) : Prop :=
  ∀ σ σ' r, m σ = (σ', r) → R (fs σ) (fs σ').

(** The entry at [p] is what it was. *)
Definition same_at (p : path) : relation (gmap path node) :=
  λ m m', m' !! p = m !! p.

(** No entry appears at [p]. *)
Definition absent_at (p : path) : relation (gmap path node) :=
  λ m m', m !! p = None → m' !! p = None.

(** A directory at [p] stays. *)
Definition dir_at (p : path) : relation (gmap path node) :=
  λ m m', m !! p = Some Dir → m' !! p = Some Dir.

(** ** Vocabulary for chunks *)

(** The number of blocks of [n] bytes needed for [size] bytes: the
    quotient rounded up. *)
Definition num_chunks (size n : nat) : nat := (size + n - 1) / n.

(** Block [i] (from 0) of [data] cut in blocks of [n] bytes. *)
Definition block (n : nat) (data : list byte) (i : nat) : list byte :=
  take n (drop (i * n) data).

(** The blocks [split_loop] writes, in order. *)
Fixpoint split_blocks (fuel : nat) (max_chunk_size : Z) (f : list byte) : list (list byte) :=
  match fuel with
  | O => []
  | S fuel' =>
      let '(chunk, f') := f_read max_chunk_size f in
      match chunk with
      | [] => []
      | _ => chunk :: split_blocks fuel' max_chunk_size f'
      end
  end.

(** The files [split_loop] leaves: block after block, numbered from
    [chunk_num]. *)
Fixpoint write_chunks (zip_path output_dir : path) (blocks : list (list byte))
    (chunk_num : Z) (m : gmap path node) : gmap path node :=
  match blocks with
  | [] => m
  | b :: bs =>
      write_chunks zip_path output_dir bs (chunk_num + 1)
        (<[chunk_path zip_path output_dir chunk_num := File b]> m)
  end.

(** The lines [split_loop] prints in verbose mode. *)
Fixpoint chunk_lines (zip_path output_dir : path) (blocks : list (list byte))
    (chunk_num : Z) : list string :=
  match blocks with
  | [] => []
  | b :: bs =>
      ("  Created chunk: " +:+ Path.str (chunk_path zip_path output_dir chunk_num) +:+
       " (" +:+ Str.of_Z (Z.of_nat (length b)) +:+ " bytes)") ::
      chunk_lines zip_path output_dir bs (chunk_num + 1)
  end.

(** A computation that never ends in [ValueError]. *)
Definition no_value_error {A} (m : M A) : Prop :=
  ∀ σ σ' msg, m σ ≠ (σ', Raise (ValueError msg)).

(** A decimal numeral, as the specification speaks of chunk numbers: a
    non-empty run of the digits [0]..[9]. *)
Definition is_digit (c : ascii) : bool :=
  ((48 <=? N_of_ascii c) && (N_of_ascii c <=? 57))%N.

Fixpoint all_digits (s : string) : bool :=
  match s with
  | EmptyString => true
  | String c s' => is_digit c && all_digits s'
  end.

Definition is_decimal_numeral (s : string) : bool :=
  negb (String.eqb s "") && all_digits s.

(** The characters that [fnmatch] does not take literally. *)
Definition glob_magic (s : string) : bool :=
  Str.mem "*" s || Str.mem "?" s || Str.mem "[" s.

#[global] Arguments MAX_SIZE : simpl never.
#[global] Arguments CHUNK_SIZE : simpl never.
#[global] Arguments f_read : simpl never.
#[global] Arguments num_chunks : simpl never.
#[global] Arguments block : simpl never.
#[global] Arguments chunk_path : simpl never.

(** Keys in non-decreasing order, the order [sorted] produces. *)
Definition key_le {A} (a b : Z * A) : Prop := a.1 ≤ b.1.

(** The order [find_chunks] puts two chunks in: by their numbers. *)
Definition chunk_le (x y : path) : Prop :=
  ∃ m n, chunk_number x = Some m ∧ chunk_number y = Some n ∧ m ≤ n.

(** Unfolds one filesystem primitive down to the lookup it depends on. *)
Ltac run_prim :=
  cbv [stat_st_size read_bytes is_dir exists_ glob open_wb write mkdir_exist_ok
       unlink rmtree check_parent chunk_key
       mbind M_bind bind mret M_ret ret raise get_fs put_fs].

(** * Properties *)

(** ** The library models at work *)

Example int_plain : Str.int "12" = Some 12.
Proof. reflexivity. Qed.

Example int_leading_zeros : Str.int "007" = Some 7.
Proof. reflexivity. Qed.

Example int_sign_spaces_underscore : Str.int " -1_000 " = Some (-1000).
Proof. reflexivity. Qed.

Example int_bak : Str.int "bak" = None.
Proof. reflexivity. Qed.

Example int_empty : Str.int "" = None.
Proof. reflexivity. Qed.

Example int_double_underscore : Str.int "1__0" = None.
Proof. reflexivity. Qed.

Example str_of_chunk_number : Str.of_Z 10 = "10".
Proof. reflexivity. Qed.

Example suffix_of_chunk : Path.suffix ["data"; "photo.png.zip.10"] = ".10".
Proof. reflexivity. Qed.

Example suffix_of_hidden_file : Path.suffix ["data"; ".profile"] = "".
Proof. reflexivity. Qed.

Example suffix_of_trailing_dot : Path.suffix ["data"; "photo.png.zip."] = "".
Proof. reflexivity. Qed.

Example endswith_dir : Str.endswith "photo.png.dir" ".dir" = true.
Proof. reflexivity. Qed.

Example drop_last_dir_suffix : Str.drop_last 4 "photo.png.dir" = "photo.png".
Proof. reflexivity. Qed.

Example fnmatch_chunk : Fnmatch.fnmatchcase "photo.png.zip.10" "photo.png.zip.*" = true.
Proof. reflexivity. Qed.

Example fnmatch_other_file : Fnmatch.fnmatchcase "photo.png" "photo.png.zip.*" = false.
Proof. reflexivity. Qed.

Example fnmatch_set : Fnmatch.fnmatchcase "a1.zip.3" "a[0-9].zip.*" = true.
Proof. reflexivity. Qed.

Example fnmatch_negated_set : Fnmatch.fnmatchcase "ab.zip.3" "a[!0-9].zip.*" = true.
Proof. reflexivity. Qed.

(** A name with a bracket expression does not match itself. *)
Example fnmatch_bracket_name : Fnmatch.fnmatchcase "a[1].zip.1" "a[1].zip.*" = false.
Proof. reflexivity. Qed.

Example fnmatch_unclosed_bracket : Fnmatch.fnmatchcase "a[1.zip.1" "a[1.zip.*" = true.
Proof. reflexivity. Qed.

(** Equal keys keep the order they came in. *)
Example insertion_sort_stable :
  insertion_sort [(1, "a"); (0, "b"); (1, "c")] = [(0, "b"); (1, "a"); (1, "c")].
Proof. reflexivity. Qed.

Example path_str_root : Path.str [] = "/".
Proof. reflexivity. Qed.

Example path_str_nested : Path.str ["data"; "photo.png"] = "/data/photo.png".
Proof. reflexivity. Qed.

(** ** Running computations *)

Lemma state_eta σ : State (fs σ) (stdout σ) = σ.
Proof. by destruct σ. Qed.

Lemma bind_run {A B} (m : M A) (k : A → M B) σ :
  (m ≫= k) σ = match m σ with
               | (σ', Ok a) => k a σ'
               | (σ', Raise e) => (σ', Raise e)
               end.
Proof. reflexivity. Qed.

Lemma bind_ok {A B} (m : M A) (k : A → M B) σ σ1 a :
  m σ = (σ1, Ok a) → (m ≫= k) σ = k a σ1.
Proof. intros Hm. by rewrite bind_run, Hm. Qed.

Lemma bind_raise {A B} (m : M A) (k : A → M B) σ σ1 e :
  m σ = (σ1, Raise e) → (m ≫= k) σ = (σ1, Raise e).
Proof. intros Hm. by rewrite bind_run, Hm. Qed.

Lemma bind_ok_inv {A B} (m : M A) (k : A → M B) σ σ' b :
  (m ≫= k) σ = (σ', Ok b) →
  ∃ σ1 a, m σ = (σ1, Ok a) ∧ k a σ1 = (σ', Ok b).
Proof.
  rewrite bind_run. destruct (m σ) as [σ1 [a|e]]; [eauto | discriminate].
Qed.

Lemma ret_run {A} (a : A) σ : (mret a : M A) σ = (σ, Ok a).
Proof. reflexivity. Qed.

Lemma print_run line σ :
  print line σ = (State (fs σ) (stdout σ ++ [line]), Ok tt).
Proof. reflexivity. Qed.

Lemma when_true m σ : when true m σ = m σ.
Proof. reflexivity. Qed.

Lemma when_false m σ : when false m σ = (σ, Ok tt).
Proof. reflexivity. Qed.

Lemma when_print_run b line σ :
  when b (print line) σ =
  (State (fs σ) (stdout σ ++ (if b then [line] else [])), Ok tt).
Proof.
  destruct b, σ as [m out]; cbv [when print ret fs stdout];
    [done | by rewrite app_nil_r].
Qed.

(** ** Python strings *)

Lemma is_digit_spec c :
  is_digit c = true →
  Ascii.eqb c "_" = false ∧ Str.is_space c = false ∧
  Ascii.eqb c "+" = false ∧ Ascii.eqb c "-" = false ∧ Ascii.eqb c "." = false ∧
  ∀ d, ∃ d', uint_of_char c (Some d) = Some d'.
Proof.
  destruct c as [[] [] [] [] [] [] [] []]; vm_compute; intros; try discriminate;
    repeat split; eauto.
Qed.

Lemma int_digits_all_digits s b :
  all_digits s = true → b = true ∨ s ≠ "" → is_Some (Str.int_digits b s).
Proof.
  revert b. induction s as [|c s IH]; intros b Hd Hb; simpl in *.
  - destruct Hb as [->|?]; [eauto | done].
  - apply andb_true_iff in Hd as [Hc Hs].
    destruct (is_digit_spec c Hc) as (-> & _ & _ & _ & _ & Hu).
    destruct (IH true Hs (or_introl eq_refl)) as [d Hd]. rewrite Hd.
    destruct (Hu d) as [d' ->]. eauto.
Qed.

Lemma lstrip_digit c s : is_digit c = true → Str.lstrip (String c s) = String c s.
Proof. intros Hc. simpl. by destruct (is_digit_spec c Hc) as (_ & -> & _). Qed.

Lemma rstrip_all_digits s : all_digits s = true → Str.rstrip s = s.
Proof.
  induction s as [|c s IH]; simpl; [done|].
  intros [Hc Hs]%andb_true_iff. rewrite (IH Hs).
  destruct (is_digit_spec c Hc) as (_ & -> & _). by destruct s.
Qed.

Lemma strip_decimal_numeral s :
  is_decimal_numeral s = true → Str.strip s = s.
Proof.
  unfold is_decimal_numeral, Str.strip. intros [Hne Hd]%andb_true_iff.
  destruct s as [|c s]; [done|]. simpl in Hd.
  apply andb_true_iff in Hd as Hd'. destruct Hd' as [Hc Hs].
  rewrite (lstrip_digit c s Hc). apply rstrip_all_digits. simpl. by rewrite Hc, Hs.
Qed.

(** [int()] accepts every decimal numeral. *)
Lemma int_decimal_numeral s :
  is_decimal_numeral s = true → is_Some (Str.int s).
Proof.
  intros Hs. unfold Str.int. rewrite (strip_decimal_numeral s Hs).
  unfold is_decimal_numeral in Hs. apply andb_true_iff in Hs as [Hne Hd].
  assert (is_Some (Str.int_digits false s)) as [u Hu].
  { apply int_digits_all_digits; [done|]. right. intros ->. done. }
  destruct s as [|c s]; [done|].
  simpl in Hd. apply andb_true_iff in Hd as [Hc _].
  destruct (is_digit_spec c Hc) as (_ & _ & Hplus & Hminus & _).
  cbv zeta. rewrite Hplus, Hminus, Hu. eauto.
Qed.

(** ** More on strings and paths *)

Lemma str_app_nil_l b : "" +:+ b = b.
Proof. reflexivity. Qed.

Lemma str_app_cons x a b : String x a +:+ b = String x (a +:+ b).
Proof. reflexivity. Qed.

Ltac str_simpl := rewrite ?str_app_cons, ?str_app_nil_l; simpl.

Lemma str_length_app a b :
  String.length (a +:+ b) = (String.length a + String.length b)%nat.
Proof. induction a as [|c a IH]; str_simpl; [done | by rewrite IH]. Qed.

Lemma str_app_assoc a b c : (a +:+ b) +:+ c = a +:+ b +:+ c.
Proof. induction a as [|x a IH]; str_simpl; [done | by rewrite IH]. Qed.

Lemma str_app_inj_l a b c : a +:+ b = a +:+ c → b = c.
Proof. induction a as [|x a IH]; str_simpl; [done|]. intros [= ?]. auto. Qed.

Lemma str_take_app a b : Str.take (String.length a) (a +:+ b) = a.
Proof. induction a as [|x a IH]; str_simpl; [by destruct b | by rewrite IH]. Qed.

Lemma str_drop_app a b : Str.drop (String.length a) (a +:+ b) = b.
Proof. induction a as [|x a IH]; str_simpl; [by destruct b | done]. Qed.

Lemma endswith_app a suf : Str.endswith (a +:+ suf) suf = true.
Proof.
  induction a as [|x a IH]; str_simpl.
  - destruct suf; simpl; [done|]. by rewrite Ascii.eqb_refl, String.eqb_refl.
  - rewrite IH. apply orb_true_r.
Qed.

Lemma drop_last_app a suf : Str.drop_last (String.length suf) (a +:+ suf) = a.
Proof.
  unfold Str.drop_last. rewrite str_length_app.
  replace (String.length a + String.length suf - String.length suf)%nat
    with (String.length a) by lia.
  apply str_take_app.
Qed.

Lemma all_digits_string_of_uint d : all_digits (NilEmpty.string_of_uint d) = true.
Proof. induction d; simpl; auto. Qed.

Lemma of_N_nonempty n : Str.of_N n ≠ "".
Proof.
  unfold Str.of_N. destruct n as [|p]; [done|]. simpl.
  pose proof (DecimalPos.Unsigned.to_uint_nonnil p) as Hnil.
  by destruct (Pos.to_uint p).
Qed.

Lemma of_Z_nonneg z : 0 ≤ z → Str.of_Z z = Str.of_N (Z.to_N z).
Proof. intros Hz. unfold Str.of_Z. by destruct (Z.ltb_spec z 0); [lia|]. Qed.

Lemma of_Z_nonempty z : Str.of_Z z ≠ "".
Proof. unfold Str.of_Z. destruct (z <? 0); [done | apply of_N_nonempty]. Qed.

Lemma of_Z_decimal_numeral z : 0 ≤ z → is_decimal_numeral (Str.of_Z z) = true.
Proof.
  intros Hz. rewrite (of_Z_nonneg z Hz). unfold is_decimal_numeral.
  apply andb_true_iff. split.
  - pose proof (of_N_nonempty (Z.to_N z)). by destruct (Str.of_N _).
  - apply all_digits_string_of_uint.
Qed.

Lemma int_digits_string_of_uint d :
  Str.int_digits true (NilEmpty.string_of_uint d) = Some d.
Proof. induction d; simpl; rewrite ?IHd; done. Qed.

Lemma int_digits_false_true s :
  s ≠ "" → all_digits s = true → Str.int_digits false s = Str.int_digits true s.
Proof.
  destruct s as [|c s]; [done|]. intros _ [Hc _]%andb_true_iff. simpl.
  by destruct (is_digit_spec c Hc) as (-> & _).
Qed.

(** [int(str(z)) == z] for the numbers chunks carry. *)
Lemma int_of_Z z : 0 ≤ z → Str.int (Str.of_Z z) = Some z.
Proof.
  intros Hz. pose proof (of_Z_decimal_numeral z Hz) as Hnum.
  unfold Str.int. rewrite (strip_decimal_numeral _ Hnum). cbv zeta.
  unfold is_decimal_numeral in Hnum. apply andb_true_iff in Hnum as [Hne Hd].
  assert (Str.of_Z z ≠ "") as Hne' by apply of_Z_nonempty.
  pose proof (int_digits_false_true _ Hne' Hd) as Hft.
  rewrite (of_Z_nonneg z Hz) in *. unfold Str.of_N in *.
  rewrite int_digits_string_of_uint in Hft.
  destruct (NilEmpty.string_of_uint _) as [|c s] eqn:Hs; [done|].
  simpl in Hd. apply andb_true_iff in Hd as [Hc _].
  destruct (is_digit_spec c Hc) as (_ & _ & -> & -> & _).
  rewrite Hft. simpl. by rewrite DecimalN.Unsigned.of_to, Z2N.id.
Qed.

Lemma of_Z_inj z1 z2 : 0 ≤ z1 → 0 ≤ z2 → Str.of_Z z1 = Str.of_Z z2 → z1 = z2.
Proof.
  intros H1 H2 Heq. pose proof (int_of_Z z1 H1) as E1.
  rewrite Heq, (int_of_Z z2 H2) in E1. congruence.
Qed.

Lemma mem_dot_all_digits s : all_digits s = true → Str.mem "." s = false.
Proof.
  induction s as [|c s IH]; simpl; [done|]. intros [Hc Hs]%andb_true_iff.
  destruct (is_digit_spec c Hc) as (_ & _ & _ & _ & -> & _). auto.
Qed.

Lemma rfind_not_mem c s : Str.mem c s = false → Str.rfind c s = None.
Proof.
  induction s as [|a s IH]; simpl; [done|]. intros [Ha Hs]%orb_false_iff.
  by rewrite (IH Hs), Ha.
Qed.

Lemma rfind_last c pre s :
  Str.mem c s = false →
  Str.rfind c (pre +:+ String c s) = Some (String.length pre).
Proof.
  intros Hs. induction pre as [|a pre IH]; str_simpl.
  - by rewrite (rfind_not_mem _ _ Hs), Ascii.eqb_refl.
  - by rewrite IH.
Qed.

(** The suffix of [<pre>.<digits>] is the dot and the digits. *)
Lemma suffix_of_name_digits pre ds :
  pre ≠ "" → ds ≠ "" → all_digits ds = true →
  Path.suffix_of_name (pre +:+ "." +:+ ds) = "." +:+ ds.
Proof.
  intros Hpre Hds Hd. unfold Path.suffix_of_name. str_simpl.
  rewrite (rfind_last "." pre ds (mem_dot_all_digits _ Hd)).
  rewrite str_length_app. simpl.
  assert (0 < String.length pre)%nat as Hp by (destruct pre; [done | simpl; lia]).
  assert (0 < String.length ds)%nat as Hs by (destruct ds; [done | simpl; lia]).
  destruct (Nat.ltb_spec 0 (String.length pre)); [|lia].
  destruct (Nat.ltb_spec (String.length pre)
              (String.length pre + S (String.length ds) - 1)); [|lia].
  simpl. apply (str_drop_app pre (String "." ds)).
Qed.

Lemma joinpath_long p s : (2 ≤ String.length s)%nat → Path.joinpath p s = p ++ [s].
Proof.
  destruct s as [|a [|b s]]; simpl; [lia..|]. intros _.
  unfold Path.joinpath. simpl. by destruct (Ascii.eqb a ".").
Qed.

Lemma parent_snoc p s : Path.parent (p ++ [s]) = p.
Proof. apply removelast_last. Qed.

Lemma name_snoc p s : Path.name (p ++ [s]) = s.
Proof. apply last_last. Qed.

Lemma path_parent_name p : p ≠ [] → p = Path.parent p ++ [Path.name p].
Proof. intros Hp. by apply app_removelast_last. Qed.

(** A sibling whose name extends the name of [p] is not [p]. *)
Lemma sibling_neq p ext :
  ext ≠ "" → Path.parent p ++ [Path.name p +:+ ext] ≠ p.
Proof.
  intros Hext Heq. destruct (decide (p = [])) as [->|Hp]; [discriminate Heq|].
  rewrite (path_parent_name p Hp) in Heq at 3.
  apply app_inj_tail in Heq as [_ Heq].
  apply (f_equal String.length) in Heq. rewrite str_length_app in Heq.
  destruct ext; [done | simpl in Heq; lia].
Qed.

Lemma chunk_path_eq zip_path output_dir z :
  chunk_path zip_path output_dir z =
  output_dir ++ [Path.name zip_path +:+ "." +:+ Str.of_Z z].
Proof.
  unfold chunk_path. apply joinpath_long. rewrite str_length_app. str_simpl.
  pose proof (of_Z_nonempty z). destruct (Str.of_Z z); [done | simpl; lia].
Qed.

Lemma chunk_path_inj zip_path output_dir z1 z2 :
  0 ≤ z1 → 0 ≤ z2 →
  chunk_path zip_path output_dir z1 = chunk_path zip_path output_dir z2 → z1 = z2.
Proof.
  intros H1 H2. rewrite !chunk_path_eq. intros [_ Heq]%app_inj_tail.
  apply str_app_inj_l in Heq. rewrite !str_app_cons in Heq.
  injection Heq as Heq. by apply of_Z_inj.
Qed.

Lemma chunk_path_parent zip_path output_dir z :
  Path.parent (chunk_path zip_path output_dir z) = output_dir.
Proof. rewrite chunk_path_eq. apply parent_snoc. Qed.

(** The number [find_chunks] reads back from a chunk file is the number
    [split_file] gave it. *)
Lemma chunk_number_chunk_path zip_path output_dir z :
  Path.name zip_path ≠ "" → 0 ≤ z →
  chunk_number (chunk_path zip_path output_dir z) = Some z.
Proof.
  intros Hname Hz. unfold chunk_number, Path.suffix.
  rewrite chunk_path_eq, name_snoc.
  pose proof (of_Z_decimal_numeral z Hz) as [Hne Hd]%andb_true_iff.
  rewrite suffix_of_name_digits; [|done|apply of_Z_nonempty|done].
  str_simpl. by apply int_of_Z.
Qed.

(** ** Fuel *)

Lemma until_rbracket_shorter s stuff rest :
  Fnmatch.until_rbracket s = Some (stuff, rest) →
  (String.length rest < String.length s)%nat.
Proof.
  revert stuff. induction s as [|c s IH]; intros stuff; simpl; [done|].
  destruct (Ascii.eqb c "]"); [intros [= _ <-]; lia|].
  destruct (Fnmatch.until_rbracket s) as [[stuff' rest']|]; [|done].
  intros [= _ <-]. specialize (IH stuff' eq_refl). lia.
Qed.

Lemma bracket_shorter s negated stuff rest :
  Fnmatch.bracket s = Some (negated, stuff, rest) →
  (String.length rest < String.length s)%nat.
Proof.
  unfold Fnmatch.bracket.
  assert (∀ s1, (String.length s1 ≤ String.length s)%nat →
    ∀ neg,
    match s1 with
    | String c t =>
        if Ascii.eqb c "]"
        then match Fnmatch.until_rbracket t with
             | Some (stuff, rest) => Some (neg, String c stuff, rest)
             | None => None
             end
        else match Fnmatch.until_rbracket s1 with
             | Some (stuff, rest) => Some (neg, stuff, rest)
             | None => None
             end
    | EmptyString => None
    end = Some (negated, stuff, rest) →
    (String.length rest < String.length s)%nat) as Hbody.
  { intros [|c t] Hlen neg; [done|]. destruct (Ascii.eqb c "]").
    - destruct (Fnmatch.until_rbracket t) as [[stuff' rest']|] eqn:Hu; [|done].
      intros [= _ _ <-]. apply until_rbracket_shorter in Hu. simpl in Hlen. lia.
    - destruct (Fnmatch.until_rbracket (String c t)) as [[stuff' rest']|] eqn:Hu; [|done].
      intros [= _ _ <-]. apply until_rbracket_shorter in Hu. lia. }
  destruct s as [|c t]; [done|]. destruct (Ascii.eqb c "!").
  - apply (Hbody t); simpl; lia.
  - apply (Hbody (String c t)); lia.
Qed.

(** The length of the pattern is fuel enough for [Fnmatch.tokens]: more
    fuel gives the same tokens. *)
Lemma tokens_fuel fuel1 fuel2 pat :
  (String.length pat ≤ fuel1)%nat → (String.length pat ≤ fuel2)%nat →
  Fnmatch.tokens fuel1 pat = Fnmatch.tokens fuel2 pat.
Proof.
  revert fuel2 pat. induction fuel1 as [|fuel1 IH]; intros fuel2 pat H1 H2.
  { destruct pat; [|simpl in H1; lia]. by destruct fuel2. }
  destruct pat as [|c p]; [by destruct fuel2|].
  destruct fuel2 as [|fuel2]; [simpl in H2; lia|]. simpl in *.
  assert (Fnmatch.tokens fuel1 p = Fnmatch.tokens fuel2 p) as Hp
    by (apply IH; lia).
  destruct (Ascii.eqb c "*"); [by rewrite Hp|].
  destruct (Ascii.eqb c "?"); [by rewrite Hp|].
  destruct (Ascii.eqb c "["); [|by rewrite Hp].
  destruct (Fnmatch.bracket p) as [[[negated stuff] rest]|] eqn:Hb; [|by rewrite Hp].
  apply bracket_shorter in Hb. f_equal. apply IH; lia.
Qed.

Lemma f_read_app n f :
  (f_read n f).1 ++ (f_read n f).2 = f.
Proof.
  unfold f_read. destruct (n <? 0); simpl; [apply app_nil_r | apply take_drop].
Qed.

(** One turn more than the number of bytes left is fuel enough for
    [split_loop], whatever the chunk size: more fuel gives the same
    run. *)
Lemma split_loop_fuel zip_path output_dir n verbose :
  ∀ fuel1 fuel2 f k σ,
    (length f < fuel1)%nat → (length f < fuel2)%nat →
    split_loop fuel1 zip_path output_dir n verbose f k σ =
    split_loop fuel2 zip_path output_dir n verbose f k σ.
Proof.
  induction fuel1 as [|fuel1 IH]; intros fuel2 f k σ H1 H2; [lia|].
  destruct fuel2 as [|fuel2]; [lia|]. simpl.
  pose proof (f_read_app n f) as Happ.
  destruct (f_read n f) as [chunk f']. simpl in Happ.
  destruct chunk as [|b chunk]; [done|].
  assert (length f' < length f)%nat as Hlen
    by (rewrite <- Happ, length_app; simpl; lia).
  rewrite !bind_run. destruct (open_wb _ σ) as [σ1 [[]|e]]; [|done].
  rewrite !bind_run. destruct (write _ _ σ1) as [σ2 [[]|e]]; [|done].
  rewrite !bind_run. destruct (when _ _ σ2) as [σ3 [[]|e]]; [|done].
  apply IH; lia.
Qed.

(** ** Filesystem primitives *)

Lemma stat_file σ p data :
  fs σ !! p = Some (File data) →
  stat_st_size p σ = (σ, Ok (Z.of_nat (length data))).
Proof. intros Hp. run_prim. by rewrite Hp. Qed.

Lemma read_bytes_file σ p data :
  fs σ !! p = Some (File data) → read_bytes p σ = (σ, Ok data).
Proof. intros Hp. run_prim. by rewrite Hp. Qed.

Lemma is_dir_run σ p : is_dir p σ = (σ, Ok (fs_is_dir (fs σ) p)).
Proof. reflexivity. Qed.

Lemma exists_run σ p : exists_ p σ = (σ, Ok (fs_exists (fs σ) p)).
Proof. reflexivity. Qed.

Lemma glob_run σ d pat : glob d pat σ = (σ, Ok (fs_glob (fs σ) d pat)).
Proof. reflexivity. Qed.

Lemma chunk_key_run σ x :
  chunk_key x σ =
  (σ, match chunk_number x with
      | Some n => Ok n
      | None => Raise (ValueError ("invalid literal for int() with base 10: '" +:+
                                   Str.drop 1 (Path.suffix x) +:+ "'"))
      end).
Proof. unfold chunk_key, chunk_number. by destruct (Str.int _). Qed.

(** ** What the primitives do when they succeed *)

Lemma open_wb_run σ p :
  fs σ !! p ≠ Some Dir → fs σ !! Path.parent p = Some Dir →
  open_wb p σ = (State (<[p := File []]> (fs σ)) (stdout σ), Ok tt).
Proof.
  intros Hp Hparent. run_prim.
  destruct (fs σ !! p) as [[|]|]; [|done|]; cbv beta; by rewrite Hparent.
Qed.

Lemma write_run σ p old data :
  fs σ !! p = Some (File old) →
  write p data σ = (State (<[p := File (old ++ data)]> (fs σ)) (stdout σ), Ok tt).
Proof. intros Hp. run_prim. by rewrite Hp. Qed.

(** [with open(p, 'wb') as f: f.write(data)] *)
Lemma create_run σ p data :
  fs σ !! p ≠ Some Dir → fs σ !! Path.parent p = Some Dir →
  (open_wb p ;; write p data) σ = (State (<[p := File data]> (fs σ)) (stdout σ), Ok tt).
Proof.
  intros Hp Hparent. rewrite (bind_ok _ _ _ _ _ (open_wb_run _ _ Hp Hparent)).
  erewrite write_run; [|apply lookup_insert_eq]. simpl. by rewrite insert_insert_eq.
Qed.

Lemma unlink_run σ p data :
  fs σ !! p = Some (File data) →
  unlink p σ = (State (delete p (fs σ)) (stdout σ), Ok tt).
Proof. intros Hp. run_prim. by rewrite Hp. Qed.

Lemma mkdir_exist_ok_run σ p :
  fs σ !! p = None → fs σ !! Path.parent p = Some Dir →
  mkdir_exist_ok p σ = (State (<[p := Dir]> (fs σ)) (stdout σ), Ok tt).
Proof. intros Hp Hparent. run_prim. rewrite Hp. cbv beta. by rewrite Hparent. Qed.

Lemma mkdir_exist_ok_exists σ p :
  fs σ !! p = Some Dir → mkdir_exist_ok p σ = (σ, Ok tt).
Proof. intros Hp. run_prim. by rewrite Hp. Qed.

Lemma rmtree_run σ d :
  fs σ !! d = Some Dir →
  rmtree d σ = (State (filter (λ kv, ¬ d `prefix_of` kv.1) (fs σ)) (stdout σ), Ok tt).
Proof. intros Hd. run_prim. by rewrite Hd. Qed.

Lemma unlink_ok_inv σ σ' p :
  unlink p σ = (σ', Ok tt) → fs σ' = delete p (fs σ).
Proof. run_prim. repeat (case_match; cbv beta iota); intros [= <-]; done. Qed.

Lemma rmtree_ok_inv σ σ' d :
  rmtree d σ = (σ', Ok tt) →
  fs σ' = filter (λ kv, ¬ d `prefix_of` kv.1) (fs σ).
Proof. run_prim. repeat (case_match; cbv beta iota); intros [= <-]; done. Qed.

(** ** Effects on the filesystem, whatever the outcome *)

Section FsRel.

Context (R : relation (gmap path node)) `{!PreOrder R}.

Lemma fs_rel_ret {A} (a : A) : fs_rel R (mret a : M A).
Proof. intros σ σ' r [= <- _]. reflexivity. Qed.

Lemma fs_rel_raise {A} e : fs_rel R (raise e : M A).
Proof. intros σ σ' r [= <- _]. reflexivity. Qed.

Lemma fs_rel_bind {A B} (m : M A) (k : A → M B) :
  fs_rel R m → (∀ a, fs_rel R (k a)) → fs_rel R (m ≫= k).
Proof.
  intros Hm Hk σ σ' r. rewrite bind_run.
  destruct (m σ) as [σ1 [a|e]] eqn:Hrun.
  - intros Hrun'. etrans; [by eapply Hm | by eapply Hk].
  - intros [= <- _]. by eapply Hm.
Qed.

Lemma fs_rel_print line : fs_rel R (print line).
Proof. intros σ σ' r [= <- _]. reflexivity. Qed.

Lemma fs_rel_when b m : fs_rel R m → fs_rel R (when b m).
Proof. destruct b; [done|]. intros _. apply (fs_rel_ret tt). Qed.

Lemma fs_rel_for_each {A} (xs : list A) body :
  (∀ x, fs_rel R (body x)) → fs_rel R (for_each xs body).
Proof.
  intros Hbody. induction xs as [|x xs IH]; simpl; [apply (fs_rel_ret tt)|].
  by apply fs_rel_bind.
Qed.

Lemma fs_rel_read_bytes p : fs_rel R (read_bytes p).
Proof.
  intros σ σ' r. run_prim.
  repeat (case_match; cbv beta iota); intros [= <- _]; reflexivity.
Qed.

Lemma fs_rel_stat_st_size p : fs_rel R (stat_st_size p).
Proof.
  intros σ σ' r. run_prim.
  repeat (case_match; cbv beta iota); intros [= <- _]; reflexivity.
Qed.

Lemma fs_rel_try_except {A} (m : M A) h :
  fs_rel R m → (∀ e, fs_rel R (h e)) → fs_rel R (try_except m h).
Proof.
  intros Hm Hh σ σ' r. unfold try_except.
  destruct (m σ) as [σ1 [a|e]] eqn:Hrun.
  - intros [= <- _]. by eapply Hm.
  - intros Hrun'. etrans; [by eapply Hm | by eapply Hh].
Qed.

End FsRel.

#[global] Instance same_at_preorder p : PreOrder (same_at p).
Proof. split; unfold same_at; [by intros m|]. intros m1 m2 m3. congruence. Qed.

#[global] Instance absent_at_preorder p : PreOrder (absent_at p).
Proof. split; unfold absent_at; [by intros m|]. intros m1 m2 m3. auto. Qed.

#[global] Instance dir_at_preorder p : PreOrder (dir_at p).
Proof. split; unfold dir_at; [by intros m|]. intros m1 m2 m3. auto. Qed.

Ltac rel_bind := refine (fs_rel_bind _ _ _ _ _); [|intros ?].
Ltac rel_when := refine (fs_rel_when _ _ _ _).
Ltac rel_print := refine (fs_rel_print _ _).
Ltac rel_when_print := rel_when; rel_print.

Ltac fs_rel_prim :=
  intros σ σ' r; run_prim; repeat (case_match; cbv beta iota);
  intros ?; simplify_eq/=;
  unfold same_at, absent_at, dir_at;
  rewrite ?lookup_insert_ne, ?lookup_delete_ne by done;
  try done.

(** *** Entries away from the one a primitive works on stay as they are *)

Lemma same_at_open_wb p q : p ≠ q → fs_rel (same_at p) (open_wb q).
Proof. intros Hne. fs_rel_prim. Qed.

Lemma same_at_write p q data : p ≠ q → fs_rel (same_at p) (write q data).
Proof. intros Hne. fs_rel_prim. Qed.

Lemma same_at_mkdir_exist_ok p q : p ≠ q → fs_rel (same_at p) (mkdir_exist_ok q).
Proof. intros Hne. fs_rel_prim. Qed.

Lemma same_at_unlink p q : p ≠ q → fs_rel (same_at p) (unlink q).
Proof. intros Hne. fs_rel_prim. Qed.

(** *** Directories survive everything but [rmtree] *)

Lemma dir_at_open_wb p q : fs_rel (dir_at p) (open_wb q).
Proof.
  fs_rel_prim; intros Hp; destruct (decide (q = p)) as [->|Hne];
    rewrite ?lookup_insert_eq, ?lookup_insert_ne by done; congruence.
Qed.

Lemma dir_at_write p q data : fs_rel (dir_at p) (write q data).
Proof.
  fs_rel_prim; intros Hp; destruct (decide (q = p)) as [->|Hne];
    rewrite ?lookup_insert_eq, ?lookup_insert_ne by done; congruence.
Qed.

Lemma dir_at_unlink p q : fs_rel (dir_at p) (unlink q).
Proof.
  fs_rel_prim; intros Hp; destruct (decide (q = p)) as [->|Hne];
    rewrite ?lookup_delete_eq, ?lookup_delete_ne by done; congruence.
Qed.

(** *** Removals create nothing *)

Lemma absent_at_unlink p q : fs_rel (absent_at p) (unlink q).
Proof.
  fs_rel_prim; intros Hp; destruct (decide (q = p)) as [->|Hne];
    rewrite ?lookup_delete_eq, ?lookup_delete_ne by done; congruence.
Qed.

Lemma absent_at_rmtree p d : fs_rel (absent_at p) (rmtree d).
Proof.
  fs_rel_prim. intros Hp. apply map_lookup_filter_None. by left.
Qed.

(** ** Effects of the loops of the script *)

Section LoopRel.

Context (R : relation (gmap path node)) `{!PreOrder R}.

Lemma fs_rel_split_loop fuel zip_path output_dir n verbose f k :
  (∀ k, fs_rel R (open_wb (chunk_path zip_path output_dir k))) →
  (∀ k data, fs_rel R (write (chunk_path zip_path output_dir k) data)) →
  fs_rel R (split_loop fuel zip_path output_dir n verbose f k).
Proof.
  intros Hopen Hwrite. revert f k.
  induction fuel as [|fuel IH]; intros f k; simpl; [apply (fs_rel_ret R tt)|].
  destruct (f_read n f) as [chunk f']. destruct chunk as [|b chunk].
  - apply (fs_rel_ret R tt).
  - rel_bind; [apply Hopen|]. rel_bind; [apply Hwrite|].
    rel_bind; [rel_when_print|]. apply IH.
Qed.

Lemma fs_rel_split_file zip_path output_dir n verbose :
  (∀ k, fs_rel R (open_wb (chunk_path zip_path output_dir k))) →
  (∀ k data, fs_rel R (write (chunk_path zip_path output_dir k) data)) →
  fs_rel R (split_file zip_path output_dir n verbose).
Proof.
  intros Hopen Hwrite. unfold split_file.
  rel_bind; [by apply fs_rel_read_bytes|]. by apply fs_rel_split_loop.
Qed.

Lemma fs_rel_concatenate zip_path zip_chunks verbose :
  fs_rel R (open_wb zip_path) →
  (∀ data, fs_rel R (write zip_path data)) →
  fs_rel R (concatenate zip_path zip_chunks verbose).
Proof.
  intros Hopen Hwrite. unfold concatenate.
  rel_bind; [done|]. refine (fs_rel_for_each _ _ _ _). intros chunk.
  rel_bind; [rel_when_print|]. rel_bind; [by apply fs_rel_read_bytes|].
  apply Hwrite.
Qed.

End LoopRel.

(** ** Cutting a stream into blocks *)

Lemma f_read_pos n f :
  0 < n → f_read n f = (take (Z.to_nat n) f, drop (Z.to_nat n) f).
Proof. intros Hn. unfold f_read. by destruct (Z.ltb_spec n 0); [lia|]. Qed.

(** The quotient rounded up. *)
Lemma num_chunks_spec size c :
  (0 < c)%nat →
  (size ≤ num_chunks size c * c)%nat ∧
  (0 < size → (num_chunks size c - 1) * c < size)%nat ∧
  (size = 0 → num_chunks size c = 0)%nat.
Proof.
  intros Hc. unfold num_chunks.
  pose proof (Nat.div_mod_eq (size + c - 1) c) as Hdm.
  pose proof (Nat.mod_upper_bound (size + c - 1) c ltac:(lia)) as Hmod.
  split_and!.
  - nia.
  - intros Hsize. destruct ((size + c - 1) / c)%nat eqn:Hq; [nia|]. simpl. nia.
  - intros ->. simpl. apply Nat.div_small. lia.
Qed.

Lemma num_chunks_step size c :
  (0 < c)%nat → (0 < size)%nat →
  num_chunks size c = S (num_chunks (size - c) c).
Proof.
  intros Hc Hsize.
  destruct (num_chunks_spec size c Hc) as (Hup & Hlow & _).
  destruct (num_chunks_spec (size - c) c Hc) as (Hup' & Hlow' & Hzero').
  specialize (Hlow Hsize).
  destruct (decide (size ≤ c)%nat) as [Hle|Hgt].
  - rewrite Hzero' by lia. destruct (num_chunks size c) as [|[|q]]; [lia | done | nia].
  - specialize (Hlow' ltac:(lia)).
    destruct (num_chunks size c) as [|q]; [lia|].
    destruct (num_chunks (size - c) c) as [|q']; [lia|].
    simpl in *. f_equal. nia.
Qed.

Lemma num_chunks_exact q c :
  (0 < c)%nat → num_chunks (q * c) c = q.
Proof.
  intros Hc. destruct (num_chunks_spec (q * c) c Hc) as (Hup & Hlow & Hzero).
  destruct q as [|q]; [by apply Hzero|].
  specialize (Hlow ltac:(nia)). destruct (num_chunks (S q * c) c); [nia|].
  simpl in *. nia.
Qed.

Lemma block_0 c f : block c f 0 = take c f.
Proof. reflexivity. Qed.

Lemma block_S c f i : block c f (S i) = block c (drop c f) i.
Proof. unfold block. by rewrite drop_drop. Qed.

(** With fuel beyond the length of the stream, the loop cuts the
    stream into its [num_chunks] blocks. *)
Lemma split_blocks_fuel fuel n f :
  0 < n → (length f < fuel)%nat →
  split_blocks fuel n f =
  block (Z.to_nat n) f <$> seq 0 (num_chunks (length f) (Z.to_nat n)).
Proof.
  intros Hn. revert f. induction fuel as [|fuel IH]; intros f Hfuel; [lia|].
  simpl. rewrite (f_read_pos n f Hn).
  assert (0 < Z.to_nat n)%nat as Hc by lia.
  destruct f as [|b f].
  - rewrite take_nil. simpl length.
    destruct (num_chunks_spec 0 (Z.to_nat n) Hc) as (_ & _ & ->); done.
  - destruct (take (Z.to_nat n) (b :: f)) as [|b' chunk] eqn:Htake.
    { apply take_nil_inv in Htake as [?|?]; [lia | done]. }
    rewrite <- Htake.
    rewrite (num_chunks_step (length (b :: f)) (Z.to_nat n)) by (simpl; lia).
    rewrite <- length_drop. simpl seq. rewrite fmap_cons, <- fmap_S_seq, <- list_fmap_compose.
    f_equal. rewrite IH.
    + apply list_fmap_ext. intros _ i _. simpl. by rewrite block_S.
    + rewrite length_drop. simpl in *. lia.
Qed.

Lemma concat_blocks c f :
  (0 < c)%nat → concat (block c f <$> seq 0 (num_chunks (length f) c)) = f.
Proof.
  intros Hc. remember (length f) as size eqn:Hsize. revert f Hsize.
  induction size as [size IH] using lt_wf_ind. intros f ->.
  destruct f as [|b f].
  - simpl length. destruct (num_chunks_spec 0 c Hc) as (_ & _ & ->); done.
  - rewrite (num_chunks_step (length (b :: f)) c) by (simpl; lia).
    rewrite <- length_drop. simpl seq.
    rewrite fmap_cons, <- fmap_S_seq, <- list_fmap_compose. simpl concat.
    set (K := num_chunks (length (drop c (b :: f))) c).
    assert (block c (b :: f) ∘ S <$> seq 0 K = block c (drop c (b :: f)) <$> seq 0 K)
      as -> by (apply list_fmap_ext; intros _ i _; simpl; by rewrite block_S).
    unfold K. rewrite (IH (length (drop c (b :: f)))); [| |done].
    + rewrite block_0. apply take_drop.
    + rewrite length_drop. simpl. lia.
Qed.

Lemma length_block_full c f i :
  (0 < c)%nat → (S i < num_chunks (length f) c)%nat → length (block c f i) = c.
Proof.
  intros Hc Hi. destruct (num_chunks_spec (length f) c Hc) as (_ & Hlow & Hzero).
  unfold block. rewrite length_take, length_drop.
  assert (0 < length f)%nat as Hpos by (destruct (length f); [rewrite Hzero in Hi|]; lia).
  specialize (Hlow Hpos). nia.
Qed.

Lemma length_block_last c f :
  (0 < c)%nat → (0 < length f)%nat →
  let K := num_chunks (length f) c in
  (length (block c f (K - 1)) = length f - (K - 1) * c)%nat ∧
  (0 < length f - (K - 1) * c ≤ c)%nat.
Proof.
  intros Hc Hpos K. destruct (num_chunks_spec (length f) c Hc) as (Hup & Hlow & _).
  specialize (Hlow Hpos). fold K in Hup, Hlow.
  unfold block. rewrite length_take, length_drop. nia.
Qed.

(** ** The files [split_loop] leaves *)

Lemma write_chunks_other zip_path output_dir blocks k m p :
  (∀ i, (i < length blocks)%nat → p ≠ chunk_path zip_path output_dir (k + Z.of_nat i)) →
  write_chunks zip_path output_dir blocks k m !! p = m !! p.
Proof.
  revert k m. induction blocks as [|b bs IH]; intros k m Hp; simpl; [done|].
  rewrite IH.
  - apply lookup_insert_ne. specialize (Hp 0%nat). rewrite Z.add_0_r in Hp.
    intros Heq. apply Hp; [simpl; lia | done].
  - intros i Hi. specialize (Hp (S i)). replace (k + 1 + Z.of_nat i) with
      (k + Z.of_nat (S i)) by lia. apply Hp. simpl. lia.
Qed.

Lemma write_chunks_lookup zip_path output_dir blocks k m i b :
  0 ≤ k → blocks !! i = Some b →
  write_chunks zip_path output_dir blocks k m
    !! chunk_path zip_path output_dir (k + Z.of_nat i) = Some (File b).
Proof.
  intros Hk. revert k m i Hk. induction blocks as [|b' bs IH]; intros k m i Hk; [done|].
  destruct i as [|i]; intros Hb.
  - injection Hb as ->. simpl write_chunks. rewrite Z.add_0_r.
    rewrite write_chunks_other; [apply lookup_insert_eq|].
    intros j _ Heq. apply chunk_path_inj in Heq; lia.
  - rewrite Nat2Z.inj_succ.
    replace (k + Z.succ (Z.of_nat i)) with (k + 1 + Z.of_nat i) by lia.
    simpl write_chunks. apply IH; [lia | exact Hb].
Qed.

(** What [split_loop] does when nothing is in its way. *)
Lemma split_loop_run fuel zip_path output_dir n verbose : ∀ f k σ,
  fs σ !! output_dir = Some Dir →
  (∀ i, (i < length (split_blocks fuel n f))%nat →
        fs σ !! chunk_path zip_path output_dir (k + Z.of_nat i) ≠ Some Dir) →
  0 ≤ k →
  split_loop fuel zip_path output_dir n verbose f k σ =
  (State (write_chunks zip_path output_dir (split_blocks fuel n f) k (fs σ))
     (stdout σ ++
      if verbose
      then chunk_lines zip_path output_dir (split_blocks fuel n f) k
      else []),
   Ok tt).
Proof.
  induction fuel as [|fuel IH]; intros f k σ Hdir Hfree Hk; simpl in *.
  { rewrite ret_run. destruct σ, verbose; simpl; by rewrite app_nil_r. }
  destruct (f_read n f) as [chunk f']. destruct chunk as [|b chunk].
  { rewrite ret_run. destruct σ, verbose; simpl; by rewrite app_nil_r. }
  set (cp := chunk_path zip_path output_dir k) in *.
  assert (fs σ !! cp ≠ Some Dir) as Hcp.
  { specialize (Hfree 0%nat). rewrite Z.add_0_r in Hfree. apply Hfree. simpl. lia. }
  assert (cp ≠ output_dir) as Hne.
  { unfold cp. rewrite chunk_path_eq. intros Heq.
    apply (f_equal length) in Heq. rewrite length_app in Heq. simpl in Heq. lia. }
  assert (fs σ !! Path.parent cp = Some Dir) as Hpar
    by (unfold cp; by rewrite chunk_path_parent).
  rewrite (bind_ok _ _ _ _ _ (open_wb_run _ _ Hcp Hpar)).
  erewrite bind_ok; [|apply write_run; apply lookup_insert_eq].
  cbn [fs stdout app]. rewrite insert_insert_eq.
  rewrite (bind_ok _ _ _ _ _ (when_print_run _ _ _)).
  rewrite IH; cbn [fs stdout].
  - f_equal. f_equal. rewrite <- app_assoc. by destruct verbose.
  - by rewrite lookup_insert_ne.
  - intros i Hi. destruct (decide (cp = chunk_path zip_path output_dir (k + 1 + Z.of_nat i)))
      as [<-|Hne'].
    + by rewrite lookup_insert_eq.
    + rewrite lookup_insert_ne by done.
      replace (k + 1 + Z.of_nat i) with (k + Z.of_nat (S i)) by lia.
      apply Hfree. simpl. lia.
  - lia.
Qed.

(** ** The chunk writer *)

Lemma split_file_run σ zip_path output_dir n verbose data :
  0 < n →
  fs σ !! zip_path = Some (File data) →
  fs σ !! output_dir = Some Dir →
  let blocks := block (Z.to_nat n) data <$>
                seq 0 (num_chunks (length data) (Z.to_nat n)) in
  (∀ i, (i < num_chunks (length data) (Z.to_nat n))%nat →
        fs σ !! chunk_path zip_path output_dir (Z.of_nat (S i)) ≠ Some Dir) →
  split_file zip_path output_dir n verbose σ =
  (State (write_chunks zip_path output_dir blocks 1 (fs σ))
     (stdout σ ++ if verbose then chunk_lines zip_path output_dir blocks 1 else []),
   Ok tt).
Proof.
  intros Hn Hzip Hdir blocks Hfree. unfold split_file.
  rewrite (bind_ok _ _ _ _ _ (read_bytes_file _ _ _ Hzip)).
  pose proof (split_blocks_fuel (S (length data)) n data Hn ltac:(lia)) as Hblocks.
  rewrite split_loop_run; [by rewrite Hblocks | done | | lia].
  intros i Hi. rewrite Hblocks, length_fmap, length_seq in Hi.
  replace (1 + Z.of_nat i) with (Z.of_nat (S i)) by lia. by apply Hfree.
Qed.

(** C3. [split_file] with a positive chunk size, on a stream of [size]
    bytes, writes the chunk files numbered 1 to [K], where [K] is
    [size / chunk size] rounded up, and touches nothing else: chunk
    [i + 1] holds block [i]; every chunk before the last has exactly
    the chunk size, the last one holds the rest, which is not empty;
    the chunks in order make up the stream; and when [size] is [q]
    times the chunk size there are exactly [q] chunks, all full, and
    no chunk [q + 1] is written. *)
Theorem split_file_chunks σ zip_path output_dir max_chunk_size verbose data :
  0 < max_chunk_size →
  fs σ !! zip_path = Some (File data) →
  fs σ !! output_dir = Some Dir →
  let c := Z.to_nat max_chunk_size in
  let K := num_chunks (length data) c in
  let chunk i := chunk_path zip_path output_dir (Z.of_nat i) in
  (∀ i, (1 ≤ i ≤ K)%nat → fs σ !! chunk i ≠ Some Dir) →
  ∃ σ',
    split_file zip_path output_dir max_chunk_size verbose σ = (σ', Ok tt) ∧
    (length data ≤ K * c)%nat ∧
    (0 < length data → (K - 1) * c < length data)%nat ∧
    (∀ i, (1 ≤ i ≤ K)%nat → fs σ' !! chunk i = Some (File (block c data (i - 1)))) ∧
    (∀ p, (∀ i, (1 ≤ i ≤ K)%nat → p ≠ chunk i) → fs σ' !! p = fs σ !! p) ∧
    (∀ i, (1 ≤ i < K)%nat → length (block c data (i - 1)) = c) ∧
    (0 < K → length (block c data (K - 1)) = length data - (K - 1) * c ∧
             0 < length data - (K - 1) * c ≤ c)%nat ∧
    concat (block c data <$> seq 0 K) = data ∧
    (∀ q, (0 < q)%nat → length data = (q * c)%nat →
          K = q ∧
          (∀ i, (1 ≤ i ≤ q)%nat → length (block c data (i - 1)) = c) ∧
          fs σ' !! chunk (S q) = fs σ !! chunk (S q)).
Proof.
  intros Hn Hzip Hdir c K chunk Hfree.
  assert (0 < c)%nat as Hc by (unfold c; lia).
  destruct (num_chunks_spec (length data) c Hc) as (Hup & Hlow & Hzero). fold K in Hup, Hlow, Hzero.
  eexists. split.
  { apply split_file_run; [done..|]. intros i Hi. apply (Hfree (S i)). unfold K, c. lia. }
  cbn [fs]. fold c K.
  assert (∀ p, (∀ i, (1 ≤ i ≤ K)%nat → p ≠ chunk i) →
    write_chunks zip_path output_dir (block c data <$> seq 0 K) 1 (fs σ) !! p = fs σ !! p)
    as Hother.
  { intros p Hp. apply write_chunks_other. intros i Hi.
    rewrite length_fmap, length_seq in Hi.
    replace (1 + Z.of_nat i) with (Z.of_nat (S i)) by lia. apply Hp. lia. }
  split_and!; try done.
  - intros i Hi. unfold chunk.
    replace (Z.of_nat i) with (1 + Z.of_nat (i - 1)) by lia.
    apply write_chunks_lookup; [lia|].
    rewrite list_lookup_fmap, lookup_seq_lt by lia. done.
  - intros i Hi. apply length_block_full; [done|]. fold K. lia.
  - intros HK. apply length_block_last; [done|].
    destruct (length data); [rewrite Hzero in HK by done; lia | lia].
  - by apply concat_blocks.
  - intros q Hq Hlen.
    assert (K = q) as HKq by (unfold K; rewrite Hlen; by apply num_chunks_exact).
    split_and!; [done | |].
    + intros i Hi. destruct (decide (i = K)) as [->|Hne].
      * destruct (length_block_last c data Hc ltac:(nia)) as [Hlast _].
        fold K in Hlast. rewrite Hlast. nia.
      * apply length_block_full; [done|]. fold K. lia.
    + apply Hother. intros i Hi Heq. unfold chunk in Heq.
      apply chunk_path_inj in Heq; lia.
Qed.

(** ** Listing a directory *)

Lemma elem_of_children (m : gmap path node) d x :
  x ∈ children m d ↔ x ≠ [] ∧ Path.parent x = d ∧ is_Some (m !! x).
Proof.
  unfold children. rewrite list_elem_of_filter, list_elem_of_fmap. split.
  - intros [[Hx Hd] [[y n] [-> Hy]]]. apply elem_of_map_to_list in Hy. eauto.
  - intros (Hx & Hd & [n Hn]). split; [done|]. exists (x, n).
    split; [done | by apply elem_of_map_to_list].
Qed.

Lemma NoDup_children (m : gmap path node) d : NoDup (children m d).
Proof. apply NoDup_filter, NoDup_fst_map_to_list. Qed.

Lemma elem_of_fs_glob (m : gmap path node) d pat x :
  x ∈ fs_glob m d pat ↔
  m !! d = Some Dir ∧ x ≠ [] ∧ Path.parent x = d ∧ is_Some (m !! x) ∧
  Fnmatch.fnmatchcase (Path.name x) pat = true.
Proof.
  unfold fs_glob, fs_is_dir. destruct (m !! d) as [[|]|] eqn:Hd.
  - rewrite elem_of_nil. split; [done | by intros [[=] _]].
  - unfold matching_children. rewrite list_elem_of_filter, elem_of_children. tauto.
  - rewrite elem_of_nil. split; [done | by intros [[=] _]].
Qed.

Lemma NoDup_fs_glob (m : gmap path node) d pat : NoDup (fs_glob m d pat).
Proof.
  unfold fs_glob. destruct (fs_is_dir m d); [|constructor].
  apply NoDup_filter, NoDup_children.
Qed.

(** ** Patterns without magic characters *)

Lemma mem_app c a b : Str.mem c (a +:+ b) = Str.mem c a || Str.mem c b.
Proof.
  induction a as [|x a IH]; str_simpl; [done|]. by rewrite IH, orb_assoc.
Qed.

Lemma glob_magic_app a b : glob_magic (a +:+ b) = glob_magic a || glob_magic b.
Proof.
  unfold glob_magic. rewrite !mem_app.
  destruct (Str.mem "*" a), (Str.mem "?" a), (Str.mem "[" a),
    (Str.mem "*" b), (Str.mem "?" b), (Str.mem "[" b); done.
Qed.

Lemma tokens_literal lit rest fuel :
  glob_magic lit = false →
  Fnmatch.tokens (String.length lit + fuel) (lit +:+ rest) =
  (Fnmatch.Lit <$> list_ascii_of_string lit) ++ Fnmatch.tokens fuel rest.
Proof.
  induction lit as [|c lit IH]; str_simpl; [done|].
  unfold glob_magic. simpl. intros Hmagic.
  destruct (Ascii.eqb c "*"), (Ascii.eqb c "?"), (Ascii.eqb c "[");
    simpl in Hmagic; rewrite ?orb_true_r in Hmagic; try discriminate.
  by rewrite (IH Hmagic).
Qed.

Lemma fullmatch_literal lit ts s :
  Fnmatch.fullmatch ((Fnmatch.Lit <$> list_ascii_of_string lit) ++ ts) (lit +:+ s) =
  Fnmatch.fullmatch ts s.
Proof.
  induction lit as [|c lit IH]; [done|]. rewrite str_app_cons.
  change (list_ascii_of_string (String c lit)) with (c :: list_ascii_of_string lit).
  rewrite fmap_cons. cbn [app Fnmatch.fullmatch Fnmatch.token_char].
  by rewrite Ascii.eqb_refl, IH.
Qed.

Lemma fullmatch_star s : Fnmatch.fullmatch [Fnmatch.Star] s = true.
Proof.
  induction s as [|c s IH]; [done|]. simpl in *. exact IH.
Qed.

(** A pattern [<lit>*] with no magic in [lit] matches every name that
    starts with [lit]. *)
Lemma fnmatchcase_prefix lit s :
  glob_magic lit = false →
  Fnmatch.fnmatchcase (lit +:+ s) (lit +:+ "*") = true.
Proof.
  intros Hmagic. unfold Fnmatch.fnmatchcase, Fnmatch.translate.
  rewrite str_length_app, (tokens_literal lit "*" _ Hmagic).
  rewrite fullmatch_literal. apply fullmatch_star.
Qed.

(** ** Gluing the chunks together *)

Lemma for_each_concatenate zip_path verbose : ∀ zip_chunks contents acc σ,
  fs σ !! zip_path = Some (File acc) →
  Forall2 (λ x data, x ≠ zip_path ∧ fs σ !! x = Some (File data)) zip_chunks contents →
  for_each zip_chunks (λ chunk,
    when verbose (print ("  Concatenating " +:+ Path.name chunk)) ;;
    data ← read_bytes chunk;
    write zip_path data) σ =
  (State (<[zip_path := File (acc ++ concat contents)]> (fs σ))
     (stdout σ ++
      if verbose
      then (λ chunk, "  Concatenating " +:+ Path.name chunk) <$> zip_chunks
      else []),
   Ok tt).
Proof.
  induction zip_chunks as [|x xs IH]; intros contents acc σ Hzip Hall.
  - apply Forall2_nil_inv_l in Hall as ->. simpl. rewrite ret_run, !app_nil_r.
    rewrite insert_id by done. destruct σ, verbose; simpl; by rewrite ?app_nil_r.
  - apply Forall2_cons_inv_l in Hall as (data & contents' & [Hne Hx] & Hxs & ->).
    cbn [for_each].
    match goal with
    | |- (?body ≫= _) σ = _ =>
        assert (body σ =
          (State (<[zip_path := File (acc ++ data)]> (fs σ))
             (stdout σ ++ if verbose then ["  Concatenating " +:+ Path.name x] else []),
           Ok tt)) as Hbody
    end.
    { cbv beta. rewrite (bind_ok _ _ _ _ _ (when_print_run _ _ _)).
      erewrite bind_ok; [|apply read_bytes_file; exact Hx].
      erewrite write_run; [|exact Hzip]. done. }
    rewrite (bind_ok _ _ _ _ _ Hbody).
    rewrite (IH contents' (acc ++ data)); cbn [fs stdout]; [|apply lookup_insert_eq|].
    + rewrite insert_insert_eq. simpl concat. rewrite <- !app_assoc.
      by destruct verbose.
    + eapply Forall2_impl; [exact Hxs|]. intros y d [Hy Hd]. simpl in *.
      split; [done|]. by rewrite lookup_insert_ne.
Qed.

Lemma concatenate_run σ zip_path zip_chunks contents verbose :
  fs σ !! zip_path ≠ Some Dir →
  fs σ !! Path.parent zip_path = Some Dir →
  Forall2 (λ x data, x ≠ zip_path ∧ fs σ !! x = Some (File data)) zip_chunks contents →
  concatenate zip_path zip_chunks verbose σ =
  (State (<[zip_path := File (concat contents)]> (fs σ))
     (stdout σ ++
      if verbose
      then (λ chunk, "  Concatenating " +:+ Path.name chunk) <$> zip_chunks
      else []),
   Ok tt).
Proof.
  intros Hzip Hparent Hall. unfold concatenate.
  rewrite (bind_ok _ _ _ _ _ (open_wb_run _ _ Hzip Hparent)).
  rewrite (for_each_concatenate _ _ _ contents []); cbn [fs stdout].
  - by rewrite insert_insert_eq.
  - apply lookup_insert_eq.
  - eapply Forall2_impl; [exact Hall|]. intros y d [Hy Hd]. simpl.
    split; [done|]. by rewrite lookup_insert_ne.
Qed.

Lemma Forall2_and_l {A B} (P : A → Prop) (Q : A → B → Prop) l k :
  Forall P l → Forall2 Q l k → Forall2 (λ x y, P x ∧ Q x y) l k.
Proof.
  intros HP HQ. induction HQ as [|x y l k Hxy _ IH]; [constructor|].
  apply Forall_cons in HP as [Hx Hl]. constructor; auto.
Qed.

(** ** Sorting by chunk number *)

Lemma keyed_chunk_key_ok σ xs :
  Forall (λ x, is_Some (chunk_number x)) xs →
  ∃ l, keyed chunk_key xs σ = (σ, Ok l) ∧ l.*2 = xs ∧
       Forall (λ kx, chunk_number kx.2 = Some kx.1) l.
Proof.
  induction 1 as [|x xs [n Hn] _ (l & Hl & Hxs & Hall)]; simpl.
  - by exists [].
  - exists ((n, x) :: l). rewrite bind_run, chunk_key_run, Hn, bind_run, Hl.
    split_and!; [done | by rewrite fmap_cons, Hxs | by constructor].
Qed.

Lemma keyed_chunk_key_raise σ xs :
  Exists (λ x, chunk_number x = None) xs →
  ∃ msg, keyed chunk_key xs σ = (σ, Raise (ValueError msg)).
Proof.
  induction xs as [|x xs IH]; intros Hex; [by apply Exists_nil in Hex|].
  simpl. rewrite bind_run, chunk_key_run.
  destruct (chunk_number x) as [n|] eqn:Hn; [|eauto].
  apply Exists_cons in Hex as [Hx|Hex]; [congruence|].
  destruct (IH Hex) as [msg Hmsg]. rewrite bind_run, Hmsg. eauto.
Qed.

Lemma insert_by_key_Permutation {A} k (x : A) l :
  insert_by_key k x l ≡ₚ (k, x) :: l.
Proof.
  induction l as [|[k' y] l IH]; simpl; [done|].
  destruct (k <=? k'); [done|]. by rewrite IH, Permutation_swap.
Qed.

Lemma insertion_sort_Permutation {A} (l : list (Z * A)) : insertion_sort l ≡ₚ l.
Proof.
  induction l as [|[k x] l IH]; simpl; [done|].
  by rewrite insert_by_key_Permutation, IH.
Qed.

Lemma insert_by_key_sorted {A} k (x : A) l :
  StronglySorted key_le l → StronglySorted key_le (insert_by_key k x l).
Proof.
  induction 1 as [|[k' y] l Hs IH Hall]; simpl.
  - repeat constructor.
  - destruct (k <=? k') eqn:Hk.
    + constructor; [by constructor|].
      apply Z.leb_le in Hk. constructor; [unfold key_le; simpl; lia|].
      eapply Forall_impl; [exact Hall|]. unfold key_le. simpl. intros; lia.
    + apply Z.leb_gt in Hk. constructor; [done|].
      rewrite insert_by_key_Permutation. constructor; [|done].
      unfold key_le. simpl. lia.
Qed.

Lemma insertion_sort_sorted {A} (l : list (Z * A)) :
  StronglySorted key_le (insertion_sort l).
Proof.
  induction l as [|[k x] l IH]; simpl; [constructor|].
  by apply insert_by_key_sorted.
Qed.

Lemma sorted_keys_chunk_le (l : list (Z * path)) :
  StronglySorted key_le l →
  Forall (λ kx, chunk_number kx.2 = Some kx.1) l →
  StronglySorted chunk_le l.*2.
Proof.
  induction 1 as [|a l Hs IH Hall]; intros Hk; simpl; [constructor|].
  apply Forall_cons in Hk as [Ha Hl]. constructor; [by apply IH|].
  apply Forall_fmap. rewrite Forall_forall in Hall, Hl |- *.
  intros b Hb. exists a.1, b.1. split_and!; [done | by apply Hl | by apply Hall].
Qed.

Lemma find_chunks_ok σ dir_path original_name :
  Forall (λ x, is_Some (chunk_number x))
    (fs_glob (fs σ) dir_path (original_name +:+ ".zip.*")) →
  ∃ zip_chunks,
    find_chunks dir_path original_name σ = (σ, Ok zip_chunks) ∧
    zip_chunks ≡ₚ fs_glob (fs σ) dir_path (original_name +:+ ".zip.*") ∧
    StronglySorted chunk_le zip_chunks.
Proof.
  intros Hall. unfold find_chunks, sorted.
  destruct (keyed_chunk_key_ok σ _ Hall) as (l & Hl & Hxs & Hk).
  exists (insertion_sort l).*2.
  rewrite bind_run, glob_run, bind_run, Hl. split_and!.
  - done.
  - by rewrite insertion_sort_Permutation, Hxs.
  - apply sorted_keys_chunk_le; [apply insertion_sort_sorted|].
    by rewrite insertion_sort_Permutation.
Qed.

Lemma find_chunks_raise σ dir_path original_name :
  Exists (λ x, chunk_number x = None)
    (fs_glob (fs σ) dir_path (original_name +:+ ".zip.*")) →
  ∃ msg, find_chunks dir_path original_name σ = (σ, Raise (ValueError msg)).
Proof.
  intros Hex. unfold find_chunks, sorted.
  destruct (keyed_chunk_key_raise σ _ Hex) as [msg Hmsg].
  exists msg. by rewrite bind_run, glob_run, bind_run, Hmsg.
Qed.

Lemma find_chunks_nil σ dir_path original_name :
  fs_glob (fs σ) dir_path (original_name +:+ ".zip.*") = [] →
  find_chunks dir_path original_name σ = (σ, Ok []).
Proof.
  intros Hnil. unfold find_chunks, sorted. by rewrite bind_run, glob_run, Hnil.
Qed.

Lemma keyed_chunk_key_inv σ σ' xs l :
  keyed chunk_key xs σ = (σ', Ok l) → σ' = σ ∧ l.*2 = xs.
Proof.
  revert l. induction xs as [|x xs IH]; intros l; simpl.
  - by intros [= <- <-].
  - rewrite bind_run, chunk_key_run. destruct (chunk_number x) as [n|]; [|done].
    rewrite bind_run. destruct (keyed chunk_key xs σ) as [σ1 [l1|e]] eqn:Hl1; [|done].
    intros [= <- <-]. destruct (IH l1 eq_refl) as [-> <-]. done.
Qed.

Lemma find_chunks_inv σ σ' dir_path original_name zip_chunks :
  find_chunks dir_path original_name σ = (σ', Ok zip_chunks) →
  σ' = σ ∧ zip_chunks ≡ₚ fs_glob (fs σ) dir_path (original_name +:+ ".zip.*").
Proof.
  unfold find_chunks, sorted. rewrite bind_run, glob_run, bind_run.
  destruct (keyed chunk_key _ σ) as [σ1 [l|e]] eqn:Hl; [|done].
  intros [= <- <-]. apply keyed_chunk_key_inv in Hl as [-> <-].
  split; [done|]. by rewrite insertion_sort_Permutation.
Qed.

Lemma fs_rel_find_chunks R `{!PreOrder R} dir_path original_name :
  fs_rel R (find_chunks dir_path original_name).
Proof.
  intros σ σ' r. unfold find_chunks, sorted. rewrite bind_run, glob_run, bind_run.
  assert (∀ xs σ1 r1, keyed chunk_key xs σ = (σ1, r1) → σ1 = σ) as Hkeyed.
  { induction xs as [|x xs IH]; intros σ1 r1; simpl; [by intros [= <- _]|].
    rewrite bind_run, chunk_key_run. destruct (chunk_number x); [|by intros [= <- _]].
    rewrite bind_run. destruct (keyed chunk_key xs σ) as [σ2 [l|e]] eqn:Hl;
      intros [= <- _]; by eapply IH. }
  destruct (keyed chunk_key _ σ) as [σ1 [l|e]] eqn:Hl;
    intros [= <- _]; apply Hkeyed in Hl as ->; reflexivity.
Qed.


(** ** Exceptions a computation can end in *)

Lemma nve_ret {A} (a : A) : no_value_error (mret a : M A).
Proof. intros σ σ' msg. rewrite ret_run. congruence. Qed.

Lemma nve_bind {A B} (m : M A) (k : A → M B) :
  no_value_error m → (∀ a, no_value_error (k a)) → no_value_error (m ≫= k).
Proof.
  intros Hm Hk σ σ' msg. rewrite bind_run.
  destruct (m σ) as [σ1 [a|e]] eqn:Hrun; [apply Hk|].
  intros [= -> ->]. by eapply Hm.
Qed.

Lemma nve_print line : no_value_error (print line).
Proof. intros σ σ' msg. rewrite print_run. congruence. Qed.

Lemma nve_when b m : no_value_error m → no_value_error (when b m).
Proof. destruct b; [done|]. intros _. apply (nve_ret tt). Qed.

Lemma nve_for_each {A} (xs : list A) body :
  (∀ x, no_value_error (body x)) → no_value_error (for_each xs body).
Proof.
  intros Hbody. induction xs as [|x xs IH]; simpl; [apply (nve_ret tt)|].
  apply nve_bind; [apply Hbody | done].
Qed.

Ltac nve_prim :=
  intros σ σ' msg; run_prim; repeat (case_match; cbv beta iota); congruence.

Lemma nve_open_wb p : no_value_error (open_wb p).
Proof. nve_prim. Qed.

Lemma nve_write p data : no_value_error (write p data).
Proof. nve_prim. Qed.

Lemma nve_read_bytes p : no_value_error (read_bytes p).
Proof. nve_prim. Qed.

Lemma nve_stat_st_size p : no_value_error (stat_st_size p).
Proof. nve_prim. Qed.

Lemma nve_unlink p : no_value_error (unlink p).
Proof. nve_prim. Qed.

Lemma nve_rmtree p : no_value_error (rmtree p).
Proof. nve_prim. Qed.

Create HintDb nve.
#[local] Hint Resolve nve_print nve_when nve_open_wb nve_write nve_read_bytes
  nve_stat_st_size nve_unlink nve_rmtree : nve.

Lemma nve_concatenate zip_path zip_chunks verbose :
  no_value_error (concatenate zip_path zip_chunks verbose).
Proof.
  unfold concatenate. apply nve_bind; [auto with nve|]. intros _.
  apply nve_for_each. intros chunk.
  do 2 (apply nve_bind; [auto with nve|]; intros ?). auto with nve.
Qed.

Section ScriptProperties.

Context `{ZipFile}.

Lemma nve_extractall zip_path target_dir :
  no_value_error (extractall zip_path target_dir).
Proof.
  unfold extractall. apply nve_bind; [auto with nve|]. intros data.
  destruct (zip_read data) as [members|].
  - apply nve_for_each. intros member.
    apply nve_bind; [auto with nve|]. intros _. auto with nve.
  - intros σ σ' msg. unfold raise. congruence.
Qed.

(** [recover_file] past the test of the directory name. *)
Lemma recover_file_run σ dir_path auto_remove verbose :
  Str.endswith (Path.name dir_path) ".dir" = true →
  recover_file dir_path auto_remove verbose σ =
  (print (recovering_line dir_path) ;;
   zip_chunks ← find_chunks dir_path (original_name_of_dir dir_path);
   match zip_chunks with
   | [] => print ("  Warning: No split files found in " +:+ Path.str dir_path)
   | _ => recover_steps dir_path zip_chunks auto_remove verbose
   end) σ.
Proof.
  intros Hdir. unfold recover_file. rewrite Hdir. reflexivity.
Qed.

(** C2. A file whose size is at most [MAX_SIZE] is skipped: the call
    returns normally, the filesystem is exactly what it was (no
    directory, container or chunk appears and the file is untouched),
    and the only effect is the [Skipping] line of verbose mode. *)
Theorem compress_and_split_skip σ file_path data auto_remove verbose :
  fs σ !! file_path = Some (File data) →
  Z.of_nat (length data) ≤ MAX_SIZE →
  compress_and_split file_path auto_remove verbose σ =
  (State (fs σ)
     (stdout σ ++
      if verbose
      then ["Skipping " +:+ Path.str file_path +:+ " (size: " +:+
            Str.of_Z (Z.of_nat (length data)) +:+ " bytes <= 1MB)"]
      else []),
   Ok tt).
Proof.
  intros Hfile Hsize. unfold compress_and_split.
  rewrite (bind_ok _ _ _ _ _ (stat_file _ _ _ Hfile)).
  apply Z.leb_le in Hsize. rewrite Hsize. apply when_print_run.
Qed.



(** ** Effects of the orchestrators *)

Lemma fs_rel_zip_create R `{!PreOrder R} zip_path file_path arcname :
  fs_rel R (open_wb zip_path) →
  (∀ data, fs_rel R (write zip_path data)) →
  fs_rel R (zip_create zip_path file_path arcname).
Proof.
  intros Hopen Hwrite. unfold zip_create.
  rel_bind; [done|]. rel_bind; [by apply fs_rel_read_bytes|]. apply Hwrite.
Qed.

Lemma fs_rel_extractall R `{!PreOrder R} zip_path target_dir :
  (∀ q, fs_rel R (open_wb q)) →
  (∀ q data, fs_rel R (write q data)) →
  fs_rel R (extractall zip_path target_dir).
Proof.
  intros Hopen Hwrite. unfold extractall.
  rel_bind; [by apply fs_rel_read_bytes|].
  destruct (zip_read _) as [members|]; [|by apply fs_rel_raise].
  refine (fs_rel_for_each _ _ _ _). intros member.
  rel_bind; [apply Hopen|]. apply Hwrite.
Qed.

(** [compress_and_split] past the size test. *)
Lemma compress_and_split_run σ file_path data auto_remove verbose :
  fs σ !! file_path = Some (File data) →
  MAX_SIZE < Z.of_nat (length data) →
  compress_and_split file_path auto_remove verbose σ =
  split_steps file_path (Z.of_nat (length data)) auto_remove verbose σ.
Proof.
  intros Hfile Hsize. unfold compress_and_split.
  rewrite (bind_ok _ _ _ _ _ (stat_file _ _ _ Hfile)).
  by destruct (Z.leb_spec (Z.of_nat (length data)) MAX_SIZE); [lia|].
Qed.

(** The names the orchestrators derive from a file name. *)
Lemma ext_path_eq p name ext :
  (2 ≤ String.length ext)%nat →
  Path.joinpath p (name +:+ ext) = p ++ [name +:+ ext].
Proof. intros Hext. apply joinpath_long. rewrite str_length_app. lia. Qed.

Lemma dir_name_neq file_path :
  Path.joinpath (Path.parent file_path) (Path.name file_path +:+ ".dir") ≠ file_path.
Proof. rewrite ext_path_eq by (simpl; lia). by apply sibling_neq. Qed.

Lemma zip_path_neq file_path :
  Path.joinpath (Path.parent file_path) (Path.name file_path +:+ ".zip") ≠ file_path.
Proof. rewrite ext_path_eq by (simpl; lia). by apply sibling_neq. Qed.

Lemma chunk_path_neq file_path zip_path k :
  chunk_path zip_path
    (Path.joinpath (Path.parent file_path) (Path.name file_path +:+ ".dir")) k
  ≠ file_path.
Proof.
  rewrite chunk_path_eq, ext_path_eq by (simpl; lia). intros Heq.
  apply (f_equal length) in Heq. rewrite !length_app in Heq.
  unfold Path.parent in Heq.
  destruct (decide (file_path = [])) as [->|Hne]; [simpl in Heq; lia|].
  pose proof (app_removelast_last EmptyString Hne) as Hlast.
  apply (f_equal length) in Hlast. rewrite length_app in Hlast.
  simpl in Heq, Hlast. lia.
Qed.

Ltac inv_bind H :=
  let σ1 := fresh "σ" in
  let Hstep := fresh "Hstep" in
  apply bind_ok_inv in H as (σ1 & [] & Hstep & H).

(** What follows [zip_path.unlink()] in [compress_and_split]. *)
Lemma fs_rel_split_tail R `{!PreOrder R} file_path line line' auto_remove verbose :
  fs_rel R (unlink file_path) →
  fs_rel R (when verbose (print line) ;;
            when auto_remove (unlink file_path ;; when verbose (print line'))).
Proof.
  intros Hunlink. rel_bind; [rel_when_print|]. rel_when.
  rel_bind; [done|]. rel_when_print.
Qed.

(** What follows [zip_path.unlink()] in [recover_file]. *)
Lemma fs_rel_recover_tail R `{!PreOrder R} dir_path line line' auto_remove verbose :
  fs_rel R (rmtree dir_path) →
  fs_rel R (when verbose (print line) ;;
            when auto_remove (rmtree dir_path ;; when verbose (print line'))).
Proof.
  intros Hrmtree. rel_bind; [rel_when_print|]. rel_when.
  rel_bind; [done|]. rel_when_print.
Qed.

Lemma recover_file_proceeds σ σ' dir_path auto_remove verbose :
  Str.endswith (Path.name dir_path) ".dir" = true →
  fs_glob (fs σ) dir_path (original_name_of_dir dir_path +:+ ".zip.*") ≠ [] →
  recover_file dir_path auto_remove verbose σ = (σ', Ok tt) →
  ∃ zip_chunks,
    fs_is_dir (fs σ) dir_path = true ∧
    recover_steps dir_path zip_chunks auto_remove verbose
      (State (fs σ) (stdout σ ++ [recovering_line dir_path])) = (σ', Ok tt).
Proof.
  intros Hdir Hsome Hrun. rewrite (recover_file_run _ _ _ _ Hdir) in Hrun.
  rewrite (bind_ok _ _ _ _ _ (print_run _ _)) in Hrun.
  apply bind_ok_inv in Hrun as (σ1 & zip_chunks & Hfind & Hrun).
  apply find_chunks_inv in Hfind as [-> Hperm]. simpl in Hperm.
  destruct zip_chunks as [|x xs].
  { apply Permutation_nil_l in Hperm. congruence. }
  exists (x :: xs). split; [|exact Hrun].
  unfold fs_glob in Hsome. by destruct (fs_is_dir _ _).
Qed.

(** C5. When [compress_and_split] has split a file and returned, and
    when [recover_file] has found chunks and returned, no entry is
    left at the path of the container [<original-name>.zip]. *)
Theorem container_removed σ σ' auto_remove verbose :
  (∀ file_path data,
     fs σ !! file_path = Some (File data) →
     MAX_SIZE < Z.of_nat (length data) →
     compress_and_split file_path auto_remove verbose σ = (σ', Ok tt) →
     fs σ' !! zip_path_of_file file_path = None) ∧
  (∀ dir_path,
     Str.endswith (Path.name dir_path) ".dir" = true →
     fs_glob (fs σ) dir_path (original_name_of_dir dir_path +:+ ".zip.*") ≠ [] →
     recover_file dir_path auto_remove verbose σ = (σ', Ok tt) →
     fs σ' !! zip_path_of_dir dir_path = None).
Proof.
  split.
  - intros file_path data Hfile Hsize Hrun.
    rewrite (compress_and_split_run _ _ _ _ _ Hfile Hsize) in Hrun.
    unfold split_steps in Hrun. cbv zeta in Hrun.
    do 6 inv_bind Hrun. apply bind_ok_inv in Hrun as (σ7 & [] & Hunlink & Hrun).
    apply unlink_ok_inv in Hunlink.
    apply (fs_rel_split_tail (absent_at _) _ _ _ _ _ (absent_at_unlink _ _)
             _ _ _ Hrun).
    rewrite Hunlink. apply lookup_delete_eq.
  - intros dir_path Hdir Hsome Hrun.
    destruct (recover_file_proceeds _ _ _ _ _ Hdir Hsome Hrun)
      as (zip_chunks & _ & Htail).
    unfold recover_steps in Htail. cbv zeta in Htail. do 4 inv_bind Htail.
    apply bind_ok_inv in Htail as (σ6 & [] & Hunlink & Htail).
    apply unlink_ok_inv in Hunlink.
    apply (fs_rel_recover_tail (absent_at _) _ _ _ _ _ (absent_at_rmtree _ _)
             _ _ _ Htail).
    rewrite Hunlink. apply lookup_delete_eq.
Qed.

Lemma same_at_split_steps file_path file_size verbose :
  fs_rel (same_at file_path) (split_steps file_path file_size false verbose).
Proof.
  unfold split_steps. cbv zeta.
  pose proof (dir_name_neq file_path) as Hdir.
  pose proof (zip_path_neq file_path) as Hzip.
  rel_bind; [rel_print|].
  rel_bind; [by apply same_at_mkdir_exist_ok|].
  rel_bind; [rel_when_print|].
  rel_bind.
  { apply fs_rel_zip_create; [apply _ | by apply same_at_open_wb |].
    intros data. by apply same_at_write. }
  rel_bind.
  { rel_when. rel_bind; [refine (fs_rel_stat_st_size _ _) | rel_print]. }
  rel_bind.
  { apply fs_rel_split_file; [apply _ | |]; intros k.
    - apply same_at_open_wb. symmetry. apply chunk_path_neq.
    - intros data. apply same_at_write. symmetry. apply chunk_path_neq. }
  rel_bind; [by apply same_at_unlink|].
  rel_bind; [rel_when_print|].
  apply (fs_rel_ret _ tt).
Qed.

Lemma dir_at_recover_steps dir_path zip_chunks verbose :
  fs_rel (dir_at dir_path) (recover_steps dir_path zip_chunks false verbose).
Proof.
  unfold recover_steps. cbv zeta.
  rel_bind.
  { apply fs_rel_concatenate; [apply _ | apply dir_at_open_wb |].
    intros data. apply dir_at_write. }
  rel_bind.
  { rel_when. rel_bind; [refine (fs_rel_stat_st_size _ _) | rel_print]. }
  rel_bind.
  { apply fs_rel_extractall; [apply _ | apply dir_at_open_wb |].
    intros q data. apply dir_at_write. }
  rel_bind; [rel_when_print|].
  rel_bind; [apply dir_at_unlink|].
  rel_bind; [rel_when_print|].
  apply (fs_rel_ret _ tt).
Qed.

(** C6. After a split that returned, the source file is gone when
    [auto_remove] is set and is there, unchanged, when it is not.
    After a recovery that returned, the chunk directory is gone when
    [auto_remove] is set and is still a directory when it is not. *)
Theorem auto_remove_gating σ σ' auto_remove verbose :
  (∀ file_path data,
     fs σ !! file_path = Some (File data) →
     MAX_SIZE < Z.of_nat (length data) →
     compress_and_split file_path auto_remove verbose σ = (σ', Ok tt) →
     fs σ' !! file_path = if auto_remove then None else Some (File data)) ∧
  (∀ dir_path,
     Str.endswith (Path.name dir_path) ".dir" = true →
     fs_glob (fs σ) dir_path (original_name_of_dir dir_path +:+ ".zip.*") ≠ [] →
     recover_file dir_path auto_remove verbose σ = (σ', Ok tt) →
     fs σ' !! dir_path = if auto_remove then None else Some Dir).
Proof.
  split.
  - intros file_path data Hfile Hsize Hrun.
    rewrite (compress_and_split_run _ _ _ _ _ Hfile Hsize) in Hrun.
    destruct auto_remove.
    + unfold split_steps in Hrun. cbv zeta in Hrun.
      do 8 inv_bind Hrun. rewrite when_true in Hrun.
      apply bind_ok_inv in Hrun as (σ9 & [] & Hunlink & Hrun).
      apply unlink_ok_inv in Hunlink.
      apply (fs_rel_when (same_at file_path)) in Hrun; [|rel_print].
      rewrite Hrun, Hunlink. apply lookup_delete_eq.
    + rewrite <- Hfile. apply (same_at_split_steps _ _ _ _ _ _ Hrun).
  - intros dir_path Hdir Hsome Hrun.
    destruct (recover_file_proceeds _ _ _ _ _ Hdir Hsome Hrun)
      as (zip_chunks & Hisdir & Htail).
    destruct auto_remove.
    + unfold recover_steps in Htail. cbv zeta in Htail.
      do 6 inv_bind Htail. rewrite when_true in Htail.
      apply bind_ok_inv in Htail as (σ7 & [] & Hrm & Htail).
      apply rmtree_ok_inv in Hrm.
      apply (fs_rel_when (same_at dir_path)) in Htail; [|rel_print].
      rewrite Htail, Hrm. apply map_lookup_filter_None. right.
      intros x _ Hnot. by apply Hnot.
    + apply (dir_at_recover_steps _ _ _ _ _ _ Htail). simpl.
      unfold fs_is_dir in Hisdir. by repeat case_match.
Qed.

(** ** More run lemmas *)

Lemma mkdir_exist_ok_either σ p :
  (∀ data, fs σ !! p ≠ Some (File data)) →
  fs σ !! Path.parent p = Some Dir →
  mkdir_exist_ok p σ = (State (<[p := Dir]> (fs σ)) (stdout σ), Ok tt).
Proof.
  intros Hp Hparent. destruct (fs σ !! p) as [[data|]|] eqn:Hlook.
  - by destruct (Hp data).
  - rewrite (mkdir_exist_ok_exists _ _ Hlook), insert_id by done. by destruct σ.
  - by apply mkdir_exist_ok_run.
Qed.

Lemma zip_create_run σ zip_path file_path arcname data :
  fs σ !! zip_path ≠ Some Dir →
  fs σ !! Path.parent zip_path = Some Dir →
  zip_path ≠ file_path →
  fs σ !! file_path = Some (File data) →
  zip_create zip_path file_path arcname σ =
  (State (<[zip_path := File (zip_write arcname data)]> (fs σ)) (stdout σ), Ok tt).
Proof.
  intros Hzip Hparent Hne Hfile. unfold zip_create.
  rewrite (bind_ok _ _ _ _ _ (open_wb_run _ _ Hzip Hparent)).
  erewrite bind_ok; [|apply read_bytes_file; cbn [fs]; by rewrite lookup_insert_ne].
  erewrite write_run; [|apply lookup_insert_eq]. cbn [fs stdout app].
  by rewrite insert_insert_eq.
Qed.

Lemma when_stat_print_run σ (verbose : bool) p data (line : Z → string) :
  fs σ !! p = Some (File data) →
  when verbose (size ← stat_st_size p; print (line size)) σ =
  (State (fs σ)
     (stdout σ ++ if verbose then [line (Z.of_nat (length data))] else []),
   Ok tt).
Proof.
  intros Hp. destruct verbose.
  - by rewrite when_true, (bind_ok _ _ _ _ _ (stat_file _ _ _ Hp)), print_run.
  - rewrite when_false, app_nil_r. by destruct σ.
Qed.

Lemma when_unlink_print_run σ (auto_remove verbose : bool) p data line :
  fs σ !! p = Some (File data) →
  when auto_remove (unlink p ;; when verbose (print line)) σ =
  (State (if auto_remove then delete p (fs σ) else fs σ)
     (stdout σ ++ if auto_remove && verbose then [line] else []),
   Ok tt).
Proof.
  intros Hp. destruct auto_remove.
  - by rewrite when_true, (bind_ok _ _ _ _ _ (unlink_run _ _ _ Hp)), when_print_run.
  - rewrite when_false, app_nil_r. by destruct σ.
Qed.

Lemma when_rmtree_print_run σ (auto_remove verbose : bool) d line :
  fs σ !! d = Some Dir →
  when auto_remove (rmtree d ;; when verbose (print line)) σ =
  (State (if auto_remove
          then filter (λ kv, ¬ d `prefix_of` kv.1) (fs σ) else fs σ)
     (stdout σ ++ if auto_remove && verbose then [line] else []),
   Ok tt).
Proof.
  intros Hd. destruct auto_remove.
  - by rewrite when_true, (bind_ok _ _ _ _ _ (rmtree_run _ _ Hd)), when_print_run.
  - rewrite when_false, app_nil_r. by destruct σ.
Qed.

Lemma extractall_single σ zip_path target_dir arcname data :
  fs σ !! zip_path = Some (File (zip_write arcname data)) →
  valid_name arcname = true →
  fs σ !! (target_dir ++ [arcname]) ≠ Some Dir →
  fs σ !! target_dir = Some Dir →
  extractall zip_path target_dir σ =
  (State (<[target_dir ++ [arcname] := File data]> (fs σ)) (stdout σ), Ok tt).
Proof.
  intros Hzip Hvalid Htarget Hdir. unfold extractall.
  rewrite (bind_ok _ _ _ _ _ (read_bytes_file _ _ _ Hzip)), zip_round_trip.
  cbn [for_each fst snd]. unfold extract_target.
  unfold valid_name in Hvalid. apply negb_true_iff in Hvalid. rewrite Hvalid.
  assert (fs σ !! Path.parent (target_dir ++ [arcname]) = Some Dir) as Hparent
    by (by rewrite parent_snoc).
  rewrite (bind_ok _ _ _ _ _ (create_run _ _ _ Htarget Hparent)).
  done.
Qed.

(** ** A split followed by a recovery *)

Section RoundTrip.

Variables (σ : state) (par : path) (nm : string) (data : list byte).

Abbreviation fp := (par ++ [nm]).
Abbreviation dir := (par ++ [nm +:+ ".dir"]).
Abbreviation zip := (par ++ [nm +:+ ".zip"]).
Abbreviation container := (zip_write nm data).
Abbreviation pat := (nm +:+ ".zip.*").

Hypothesis Hfile : fs σ !! fp = Some (File data).
Hypothesis Hpar : fs σ !! par = Some Dir.
Hypothesis Hmagic : glob_magic nm = false.
Hypothesis Hvalid : valid_name nm = true.
Hypothesis Hdir : ∀ old, fs σ !! dir ≠ Some (File old).
Hypothesis Hclean : matching_children (fs σ) dir pat = [].
Hypothesis Hzip : fs σ !! zip ≠ Some Dir.

Let blocks : list (list byte) :=
  block (Z.to_nat CHUNK_SIZE) container <$>
  seq 0 (num_chunks (length container) (Z.to_nat CHUNK_SIZE)).

(** The filesystem after each step of the split. *)
Let m1 : gmap path node := <[dir := Dir]> (fs σ).
Let m2 : gmap path node := <[zip := File container]> m1.
Let m3 : gmap path node := write_chunks zip dir blocks 1 m2.
Let m4 : gmap path node := delete zip m3.
Let m5 (auto_remove : bool) : gmap path node :=
  if auto_remove then delete fp m4 else m4.

Ltac by_length :=
  let Heq := fresh in
  intros Heq; rewrite ?chunk_path_eq in Heq; apply (f_equal length) in Heq;
  rewrite ?length_app in Heq; simpl in Heq; lia.

Local Lemma fp_dir : fp ≠ dir.
Proof.
  intros [_ Heq]%app_inj_tail. apply (f_equal String.length) in Heq.
  rewrite str_length_app in Heq. simpl in Heq. lia.
Qed.

Local Lemma fp_zip : fp ≠ zip.
Proof.
  intros [_ Heq]%app_inj_tail. apply (f_equal String.length) in Heq.
  rewrite str_length_app in Heq. simpl in Heq. lia.
Qed.

Local Lemma dir_zip : dir ≠ zip.
Proof. intros [_ Heq]%app_inj_tail. by apply str_app_inj_l in Heq. Qed.

Local Lemma chunk_name z :
  chunk_path zip dir z = dir ++ [(nm +:+ ".zip.") +:+ Str.of_Z z].
Proof.
  rewrite chunk_path_eq, name_snoc. by rewrite !str_app_assoc.
Qed.

Local Lemma chunk_matches z :
  Fnmatch.fnmatchcase (Path.name (chunk_path zip dir z)) pat = true.
Proof.
  rewrite chunk_name, name_snoc.
  replace pat with ((nm +:+ ".zip.") +:+ "*") by (by rewrite !str_app_assoc).
  apply fnmatchcase_prefix. rewrite glob_magic_app, Hmagic. done.
Qed.

Local Lemma chunk_free z : fs σ !! chunk_path zip dir z = None.
Proof.
  destruct (fs σ !! chunk_path zip dir z) as [n|] eqn:Hlook; [|done].
  assert (chunk_path zip dir z ∈ matching_children (fs σ) dir pat) as Hin.
  { unfold matching_children. apply list_elem_of_filter. split; [apply chunk_matches|].
    apply elem_of_children. split_and!; [|apply chunk_path_parent|by eexists].
    rewrite chunk_path_eq. by destruct dir. }
  rewrite Hclean in Hin. by apply elem_of_nil in Hin.
Qed.

Local Lemma blocks_concat : concat blocks = container.
Proof. apply concat_blocks. unfold CHUNK_SIZE. lia. Qed.

Local Lemma blocks_nonempty : blocks ≠ [].
Proof.
  intros Hnil. pose proof blocks_concat as Hc. rewrite Hnil in Hc.
  by apply (zip_nonempty nm data).
Qed.

Lemma split_steps_run auto_remove verbose :
  ∃ out,
    split_steps fp (Z.of_nat (length data)) auto_remove verbose σ =
    (State (m5 auto_remove) out, Ok tt).
Proof.
  unfold split_steps. rewrite parent_snoc, name_snoc.
  rewrite !ext_path_eq by (simpl; lia). cbv zeta.
  rewrite (bind_ok _ _ _ _ _ (print_run _ _)).
  erewrite bind_ok;
    [|apply mkdir_exist_ok_either; cbn [fs]; [done | by rewrite parent_snoc]].
  cbn [fs stdout]. fold m1.
  rewrite (bind_ok _ _ _ _ _ (when_print_run _ _ _)). cbn [fs stdout].
  erewrite bind_ok; [|apply (zip_create_run _ _ _ _ data); cbn [fs]; unfold m1].
  2:{ rewrite lookup_insert_ne by apply dir_zip. done. }
  2:{ rewrite parent_snoc, lookup_insert_ne by by_length. done. }
  2:{ intros Heq. by apply fp_zip. }
  2:{ rewrite lookup_insert_ne by (intros Heq; by apply fp_dir). done. }
  cbn [fs stdout]. fold m1 m2.
  erewrite bind_ok; [|apply (when_stat_print_run _ _ _ container); apply lookup_insert_eq].
  cbn [fs stdout].
  erewrite bind_ok; [|apply (split_file_run _ _ _ _ _ container);
                      cbn [fs]; unfold m2, m1].
  2:{ unfold CHUNK_SIZE. lia. }
  2:{ apply lookup_insert_eq. }
  2:{ rewrite lookup_insert_ne by (intros Heq; by apply dir_zip).
      apply lookup_insert_eq. }
  2:{ intros i _. rewrite lookup_insert_ne by by_length.
      rewrite lookup_insert_ne by by_length. by rewrite chunk_free. }
  cbn [fs stdout]. fold blocks m1 m2 m3.
  erewrite bind_ok; [|apply (unlink_run _ _ container); cbn [fs]; unfold m3].
  2:{ rewrite write_chunks_other by (intros i _; by_length). apply lookup_insert_eq. }
  cbn [fs stdout]. fold m4.
  rewrite (bind_ok _ _ _ _ _ (when_print_run _ _ _)). cbn [fs stdout].
  erewrite (when_unlink_print_run _ _ _ _ data); [eexists; reflexivity|].
  cbn [fs]. unfold m4, m3, m2, m1.
  rewrite lookup_delete_ne by (intros Heq; by apply fp_zip).
  rewrite write_chunks_other by (intros i _; by_length).
  rewrite lookup_insert_ne by (intros Heq; by apply fp_zip).
  rewrite lookup_insert_ne by (intros Heq; by apply fp_dir). done.
Qed.

(** *** The filesystem the split leaves *)

Local Lemma m5_par auto_remove : m5 auto_remove !! par = Some Dir.
Proof.
  unfold m5, m4, m3, m2, m1. destruct auto_remove;
    rewrite ?lookup_delete_ne by by_length;
    rewrite write_chunks_other by (intros i _; by_length);
    rewrite !lookup_insert_ne by by_length; done.
Qed.

Local Lemma m5_dir auto_remove : m5 auto_remove !! dir = Some Dir.
Proof.
  unfold m5, m4, m3, m2, m1. destruct auto_remove;
    rewrite ?lookup_delete_ne by (first [apply fp_dir | intros ?; by apply dir_zip]);
    rewrite write_chunks_other by (intros i _; by_length);
    rewrite lookup_insert_ne by (intros ?; by apply dir_zip);
    apply lookup_insert_eq.
Qed.

Local Lemma m5_zip auto_remove : m5 auto_remove !! zip = None.
Proof.
  unfold m5, m4. destruct auto_remove;
    rewrite ?lookup_delete_ne by apply fp_zip; apply lookup_delete_eq.
Qed.

Local Lemma m5_fp auto_remove :
  m5 auto_remove !! fp = if auto_remove then None else Some (File data).
Proof.
  unfold m5, m4, m3, m2, m1. destruct auto_remove; [apply lookup_delete_eq|].
  rewrite lookup_delete_ne by (intros ?; by apply fp_zip).
  rewrite write_chunks_other by (intros i _; by_length).
  rewrite lookup_insert_ne by (intros ?; by apply fp_zip).
  rewrite lookup_insert_ne by (intros ?; by apply fp_dir). done.
Qed.

Local Lemma m5_chunk auto_remove i b :
  blocks !! i = Some b →
  m5 auto_remove !! chunk_path zip dir (Z.of_nat (S i)) = Some (File b).
Proof.
  intros Hb. unfold m5, m4, m3. destruct auto_remove;
    rewrite ?lookup_delete_ne by by_length;
    replace (Z.of_nat (S i)) with (1 + Z.of_nat i) by lia;
    by apply write_chunks_lookup.
Qed.

(** The chunk files, in the order of their numbers. *)
Let chunks : list path :=
  (λ i, chunk_path zip dir (Z.of_nat (S i))) <$> seq 0 (length blocks).

Local Lemma elem_of_chunks x :
  x ∈ chunks ↔ ∃ i, (i < length blocks)%nat ∧ x = chunk_path zip dir (Z.of_nat (S i)).
Proof.
  unfold chunks. rewrite list_elem_of_fmap. split.
  - intros (i & -> & Hi). apply elem_of_seq in Hi. exists i. split; [lia | done].
  - intros (i & Hi & ->). exists i. split; [done|]. apply elem_of_seq. lia.
Qed.

Local Lemma m5_other auto_remove x :
  Path.parent x = dir → x ∉ chunks → m5 auto_remove !! x = fs σ !! x.
Proof.
  intros Hparent Hnotin.
  assert (x ≠ fp) as Hfp
    by (intros ->; rewrite parent_snoc in Hparent; revert Hparent; by_length).
  assert (x ≠ zip) as Hz
    by (intros ->; rewrite parent_snoc in Hparent; revert Hparent; by_length).
  assert (x ≠ dir) as Hd
    by (intros ->; rewrite parent_snoc in Hparent; revert Hparent; by_length).
  unfold m5, m4, m3, m2, m1. destruct auto_remove;
    rewrite ?lookup_delete_ne by done;
    (rewrite write_chunks_other;
     [by rewrite !lookup_insert_ne by done|]);
    intros i Hi ->; apply Hnotin, elem_of_chunks; exists i;
    (split; [done | f_equal; lia]).
Qed.

Local Lemma glob_chunks auto_remove :
  fs_glob (m5 auto_remove) dir pat ≡ₚ chunks.
Proof.
  apply NoDup_Permutation; [apply NoDup_fs_glob | |].
  { unfold chunks. apply NoDup_fmap_2_strong; [|apply NoDup_seq].
    intros i j _ _ Heq. apply chunk_path_inj in Heq; lia. }
  intros x. rewrite elem_of_fs_glob. split.
  - intros (_ & Hx & Hparent & Hsome & Hmatch).
    destruct (decide (x ∈ chunks)) as [|Hnotin]; [done|].
    rewrite (m5_other _ _ Hparent Hnotin) in Hsome.
    assert (x ∈ matching_children (fs σ) dir pat) as Hin.
    { unfold matching_children. apply list_elem_of_filter. split; [done|].
      by apply elem_of_children. }
    rewrite Hclean in Hin. by apply elem_of_nil in Hin.
  - intros (i & Hi & ->)%elem_of_chunks.
    destruct (lookup_lt_is_Some_2 blocks i Hi) as [b Hb].
    split_and!.
    + apply m5_dir.
    + rewrite chunk_path_eq. by destruct dir.
    + apply chunk_path_parent.
    + rewrite (m5_chunk _ _ _ Hb). by eexists.
    + apply chunk_matches.
Qed.

Local Lemma chunk_number_chunk z :
  0 ≤ z → chunk_number (chunk_path zip dir z) = Some z.
Proof.
  apply chunk_number_chunk_path. rewrite name_snoc. by destruct nm.
Qed.

Local Lemma chunks_sorted : StronglySorted chunk_le chunks.
Proof.
  unfold chunks. generalize (length blocks) as n. generalize 0%nat as start.
  intros start n. revert start. induction n as [|n IH]; intros start; cbn [seq].
  - constructor.
  - rewrite fmap_cons. constructor; [apply IH|].
    apply Forall_fmap, Forall_forall. intros j Hj. apply elem_of_seq in Hj.
    exists (Z.of_nat (S start)), (Z.of_nat (S j)).
    rewrite !chunk_number_chunk by lia. split_and!; [done..|lia].
Qed.

Lemma find_chunks_after_split auto_remove out :
  find_chunks dir nm (State (m5 auto_remove) out) =
  (State (m5 auto_remove) out, Ok chunks).
Proof.
  pose proof (glob_chunks auto_remove) as Hglob.
  destruct (find_chunks_ok (State (m5 auto_remove) out) dir nm)
    as (l & Hl & Hperm & Hsorted).
  { cbn [fs]. rewrite Hglob. apply Forall_forall.
    intros x (i & Hi & ->)%elem_of_chunks. rewrite chunk_number_chunk by lia. eauto. }
  rewrite Hl. do 2 f_equal. cbn [fs] in Hperm.
  apply (StronglySorted_unique_strong chunk_le);
    [|done | apply chunks_sorted | by rewrite Hperm].
  intros x1 x2 Hx1 Hx2 (a & b & Ha & Hb & Hab) (b' & a' & Hb' & Ha' & Hba).
  rewrite Hperm, Hglob in Hx1.
  apply elem_of_chunks in Hx1 as (i & Hi & ->).
  apply elem_of_chunks in Hx2 as (j & Hj & ->).
  rewrite chunk_number_chunk in Ha, Ha', Hb, Hb' by lia.
  simplify_eq. f_equal. lia.
Qed.

Local Lemma drop_last_dir : Str.drop_last 4 (nm +:+ ".dir") = nm.
Proof. apply (drop_last_app nm ".dir"). Qed.

Local Lemma chunks_files auto_remove :
  Forall2 (λ x b, x ≠ zip ∧ m5 auto_remove !! x = Some (File b)) chunks blocks.
Proof.
  apply Forall2_same_length_lookup. split.
  { unfold chunks. by rewrite length_fmap, length_seq. }
  intros i x b Hx Hb. unfold chunks in Hx.
  rewrite list_lookup_fmap in Hx.
  rewrite lookup_seq_lt in Hx by (by apply lookup_lt_Some in Hb).
  simpl in Hx. injection Hx as <-. split; [by_length | by apply m5_chunk].
Qed.

Lemma recover_after_split auto_remove auto_remove' verbose' out :
  ∃ σ2,
    recover_file dir auto_remove' verbose' (State (m5 auto_remove) out) = (σ2, Ok tt) ∧
    fs σ2 !! fp = Some (File data).
Proof.
  rewrite recover_file_run by (rewrite name_snoc; apply endswith_app).
  unfold original_name_of_dir. rewrite name_snoc, drop_last_dir.
  rewrite (bind_ok _ _ _ _ _ (print_run _ _)). cbn [fs stdout].
  rewrite (bind_ok _ _ _ _ _ (find_chunks_after_split _ _)).
  destruct chunks as [|x xs] eqn:Hchunks.
  { pose proof blocks_nonempty as Hne. unfold chunks in Hchunks.
    destruct blocks; [done | discriminate Hchunks]. }
  rewrite <- Hchunks. clear x xs Hchunks.
  unfold recover_steps. rewrite parent_snoc, name_snoc, drop_last_dir.
  rewrite !ext_path_eq by (simpl; lia). cbv zeta.
  erewrite bind_ok; [|apply (concatenate_run _ _ _ blocks); cbn [fs]].
  2:{ by rewrite m5_zip. }
  2:{ rewrite parent_snoc. apply m5_par. }
  2:{ apply chunks_files. }
  cbn [fs stdout]. rewrite blocks_concat.
  erewrite bind_ok; [|apply (when_stat_print_run _ _ _ container); apply lookup_insert_eq].
  cbn [fs stdout].
  erewrite bind_ok; [|apply (extractall_single _ _ _ nm data); cbn [fs]].
  2:{ apply lookup_insert_eq. }
  2:{ done. }
  2:{ rewrite lookup_insert_ne by (intros ?; by apply fp_zip).
      rewrite m5_fp. by destruct auto_remove. }
  2:{ rewrite lookup_insert_ne by by_length. apply m5_par. }
  cbn [fs stdout].
  rewrite (bind_ok _ _ _ _ _ (when_print_run _ _ _)). cbn [fs stdout].
  erewrite bind_ok; [|apply (unlink_run _ _ container); cbn [fs]].
  2:{ rewrite lookup_insert_ne by apply fp_zip. apply lookup_insert_eq. }
  cbn [fs stdout].
  rewrite (bind_ok _ _ _ _ _ (when_print_run _ _ _)). cbn [fs stdout].
  erewrite when_rmtree_print_run; cbn [fs].
  2:{ rewrite lookup_delete_ne by (intros ?; by apply dir_zip).
      rewrite lookup_insert_ne by apply fp_dir.
      rewrite lookup_insert_ne by (intros ?; by apply dir_zip). apply m5_dir. }
  eexists. split; [reflexivity|]. cbn [fs].
  assert (delete zip (<[fp:=File data]> (<[zip:=File container]> (m5 auto_remove)))
            !! fp = Some (File data)) as Hfp.
  { rewrite lookup_delete_ne by (intros ?; by apply fp_zip). apply lookup_insert_eq. }
  destruct auto_remove'; [|done].
  apply map_lookup_filter_Some. split; [done|]. simpl.
  intros [k Hk]. apply (f_equal length) in Hk as Hlen.
  rewrite !length_app in Hlen. simpl in Hlen.
  destruct k; [|simpl in Hlen; lia]. rewrite app_nil_r in Hk. by apply fp_dir.
Qed.

(** The round trip, for a file given by its directory and name. *)
Lemma split_then_recover_at auto_remove verbose auto_remove' verbose' :
  MAX_SIZE < Z.of_nat (length data) →
  ∃ σ1 σ2,
    compress_and_split fp auto_remove verbose σ = (σ1, Ok tt) ∧
    recover_file dir auto_remove' verbose' σ1 = (σ2, Ok tt) ∧
    fs σ2 !! fp = Some (File data).
Proof.
  intros Hsize. rewrite (compress_and_split_run _ _ _ _ _ Hfile Hsize).
  destruct (split_steps_run auto_remove verbose) as [out ->].
  destruct (recover_after_split auto_remove auto_remove' verbose' out)
    as (σ2 & Hrec & Hfp).
  eauto.
Qed.

End RoundTrip.



(** ** The scanner *)

Lemma try_except_print_ok (m : M unit) (line : exn → string) :
  never_raises (try_except m (λ e, print (line e))).
Proof.
  intros σ. unfold try_except.
  destruct (m σ) as [σ1 [[]|e]]; [eauto|]. rewrite print_run. eauto.
Qed.

Lemma never_raises_bind (m : M unit) (k : unit → M unit) :
  never_raises m → never_raises (k tt) → never_raises (m ≫= k).
Proof.
  intros Hm Hk σ. destruct (Hm σ) as [σ1 Hσ1].
  rewrite (bind_ok _ _ _ _ _ Hσ1). apply Hk.
Qed.

Lemma never_raises_print line : never_raises (print line).
Proof. intros σ. rewrite print_run. eauto. Qed.

Lemma never_raises_when b m : never_raises m → never_raises (when b m).
Proof. destruct b; [done|]. intros _ σ. rewrite when_false. eauto. Qed.

Lemma never_raises_for_each {A} (xs : list A) body :
  (∀ x, never_raises (body x)) → never_raises (for_each xs body).
Proof.
  intros Hbody. induction xs as [|x xs IH]; simpl.
  - intros σ. rewrite ret_run. eauto.
  - by apply never_raises_bind.
Qed.

Lemma for_each_app {A} (xs ys : list A) body σ :
  for_each (xs ++ ys) body σ = (for_each xs body ;; for_each ys body) σ.
Proof.
  revert σ. induction xs as [|x xs IH]; intros σ; simpl.
  - by rewrite (bind_ok _ _ _ _ _ (ret_run tt σ)).
  - rewrite !bind_run. destruct (body x σ) as [σ1 [[]|e]]; [|done].
    rewrite IH. by rewrite bind_run.
Qed.

Lemma scan_item_run recover_mode auto_remove verbose item σ :
  scan_item recover_mode auto_remove verbose item σ =
  if dispatched recover_mode (fs σ) item
  then try_except (orchestrate recover_mode auto_remove verbose item)
         (λ e, print (error_line recover_mode item e)) σ
  else (σ, Ok tt).
Proof.
  destruct recover_mode; simpl.
  - unfold scan_recover_item. rewrite (bind_ok _ _ _ _ _ (is_dir_run _ _)).
    by destruct (fs_is_dir _ _).
  - unfold scan_split_item, split_mode_skips.
    rewrite (bind_ok _ _ _ _ _ (is_dir_run _ _)).
    destruct (fs_is_dir _ _); [done|]. simpl.
    destruct (existsb _ _); [done|]. simpl.
    destruct (String.eqb (Path.suffix item) ".zip"); simpl.
    + rewrite (bind_ok _ _ _ _ _ (exists_run _ _)).
      destruct (fs_exists _ _); [done|]. simpl.
      by destruct (String.eqb (Path.name item) _).
    + rewrite (bind_ok _ _ _ _ _ (ret_run _ _)).
      by destruct (String.eqb (Path.name item) _).
Qed.

Lemma scan_item_never_raises recover_mode auto_remove verbose item :
  never_raises (scan_item recover_mode auto_remove verbose item).
Proof.
  intros σ. rewrite scan_item_run. destruct (dispatched _ _ _); [|eauto].
  apply try_except_print_ok.
Qed.

Lemma scan_directory_for_each items recover_mode auto_remove verbose :
  scan_directory items recover_mode auto_remove verbose =
  for_each items (scan_item recover_mode auto_remove verbose).
Proof. by destruct recover_mode. Qed.

Lemma scan_directory_never_raises items recover_mode auto_remove verbose :
  never_raises (scan_directory items recover_mode auto_remove verbose).
Proof.
  rewrite scan_directory_for_each. apply never_raises_for_each.
  intros item. apply scan_item_never_raises.
Qed.


End ScriptProperties.

(** * The script on concrete filesystems

    The statements above are run here on the filesystems of [Demo],
    with the container format [stored_zip]. *)

Lemma run_ok {A} (x : state * result A) (a : A) : x.2 = Ok a → x = (x.1, Ok a).
Proof. destruct x as [σ r]. simpl. by intros ->. Qed.

Lemma run_raise {A} (x : state * result A) (e : exn) :
  x.2 = Raise e → x = (x.1, Raise e).
Proof. destruct x as [σ r]. simpl. by intros ->. Qed.

Lemma compress_and_split_skip_witness :
  @compress_and_split stored_zip ["data"; "notes.txt"] true true Demo.notes =
  (State (fs Demo.notes) ["Skipping /data/notes.txt (size: 2 bytes <= 1MB)"], Ok tt).
Proof.
  apply (compress_and_split_skip (H:=stored_zip) Demo.notes
           ["data"; "notes.txt"] Demo.small true true).
  - reflexivity.
  - vm_compute. discriminate.
Defined.




Lemma container_removed_witness :
  fs (@compress_and_split stored_zip ["data"; "big.bin"] true false Demo.big_file).1
    !! ["data"; "big.bin.zip"] = None ∧
  fs (@recover_file stored_zip ["data"; "big.bin.dir"] false false Demo.split_done).1
    !! ["data"; "big.bin.zip"] = None.
Proof.
  split.
  - apply (proj1 (container_removed (H:=stored_zip) Demo.big_file _ true false)
             ["data"; "big.bin"] Demo.big).
    + reflexivity.
    + vm_compute. reflexivity.
    + apply run_ok. vm_compute. reflexivity.
  - apply (proj2 (container_removed (H:=stored_zip) Demo.split_done _ false false)
             ["data"; "big.bin.dir"]).
    + reflexivity.
    + vm_compute. discriminate.
    + apply run_ok. vm_compute. reflexivity.
Defined.

Lemma auto_remove_gating_witness :
  fs (@compress_and_split stored_zip ["data"; "big.bin"] true false Demo.big_file).1
    !! ["data"; "big.bin"] = None ∧
  fs (@compress_and_split stored_zip ["data"; "big.bin"] false false Demo.big_file).1
    !! ["data"; "big.bin"] = Some (File Demo.big) ∧
  fs (@recover_file stored_zip ["data"; "big.bin.dir"] true false Demo.split_done).1
    !! ["data"; "big.bin.dir"] = None ∧
  fs (@recover_file stored_zip ["data"; "big.bin.dir"] false false Demo.split_done).1
    !! ["data"; "big.bin.dir"] = Some Dir.
Proof.
  split_and!.
  - apply (proj1 (auto_remove_gating (H:=stored_zip) Demo.big_file _ true false)
             ["data"; "big.bin"] Demo.big).
    + reflexivity.
    + vm_compute. reflexivity.
    + apply run_ok. vm_compute. reflexivity.
  - apply (proj1 (auto_remove_gating (H:=stored_zip) Demo.big_file _ false false)
             ["data"; "big.bin"] Demo.big).
    + reflexivity.
    + vm_compute. reflexivity.
    + apply run_ok. vm_compute. reflexivity.
  - apply (proj2 (auto_remove_gating (H:=stored_zip) Demo.split_done _ true false)
             ["data"; "big.bin.dir"]).
    + reflexivity.
    + vm_compute. discriminate.
    + apply run_ok. vm_compute. reflexivity.
  - apply (proj2 (auto_remove_gating (H:=stored_zip) Demo.split_done _ false false)
             ["data"; "big.bin.dir"]).
    + reflexivity.
    + vm_compute. discriminate.
    + apply run_ok. vm_compute. reflexivity.
Defined.



Lemma split_file_chunks_witness :
  let zip := ["data"; "a.zip"] in
  let dir := ["data"; "a.dir"] in
  ∃ σ',
    split_file zip dir 4 false Demo.ten = (σ', Ok tt) ∧
    fs σ' !! (dir ++ ["a.zip.1"]) = Some (File [x30; x31; x32; x33]) ∧
    fs σ' !! (dir ++ ["a.zip.2"]) = Some (File [x34; x35; x36; x37]) ∧
    fs σ' !! (dir ++ ["a.zip.3"]) = Some (File [x38; x39]) ∧
    fs σ' !! (dir ++ ["a.zip.4"]) = None.
Proof.
  intros zip dir.
  destruct (split_file_chunks Demo.ten zip dir 4 false
              [x30; x31; x32; x33; x34; x35; x36; x37; x38; x39])
    as (σ' & Hrun & _ & _ & Hchunk & Hother & _).
  - lia.
  - reflexivity.
  - reflexivity.
  - intros i Hi. vm_compute in Hi.
    assert (i = 1 ∨ i = 2 ∨ i = 3)%nat as [-> | [-> | ->]] by lia;
      vm_compute; discriminate.
  - exists σ'. split; [exact Hrun|]. split_and!.
    + apply (Hchunk 1%nat). vm_compute. lia.
    + apply (Hchunk 2%nat). vm_compute. lia.
    + apply (Hchunk 3%nat). vm_compute. lia.
    + rewrite Hother; [reflexivity|].
      intros i Hi. vm_compute in Hi.
      assert (i = 1 ∨ i = 2 ∨ i = 3)%nat as [-> | [-> | ->]] by lia;
        vm_compute; discriminate.
Defined.

(** C8, at a regular file whose own name ends in [.dir].  The file is
    above the threshold, it is not a directory, no directory on its path
    has a name ending in [.dir], and it is neither a temporary container
    nor the script; the split loop skips it all the same, leaving the
    filesystem and the output as they were, although
    [compress_and_split] on that file returns normally and creates its
    chunk directory. *)
Theorem scan_split_item_skips_file_named_dir :
  let item := ["data"; "big.dir"] in
  let σ := Demo.dir_named_file in
  fs σ !! item = Some (File Demo.big) ∧
  MAX_SIZE < Z.of_nat (length Demo.big) ∧
  existsb (λ part, Str.endswith part ".dir") (Path.parts (Path.parent item)) = false ∧
  String.eqb (Path.suffix item) ".zip" = false ∧
  String.eqb (Path.name item) "large_file_splitter.py" = false ∧
  @scan_directory stored_zip [item] false false true σ = (σ, Ok tt) ∧
  (@compress_and_split stored_zip item false true σ).2 = Ok tt ∧
  fs (@compress_and_split stored_zip item false true σ).1 !! ["data"; "big.dir.dir"]
    = Some Dir.
Proof.
  intros item σ. split_and!.
  - reflexivity.
  - vm_compute. reflexivity.
  - reflexivity.
  - reflexivity.
  - reflexivity.
  - rewrite scan_directory_for_each. cbn [for_each].
    erewrite bind_ok; [apply ret_run|].
    rewrite scan_item_run.
    assert (dispatched false (fs σ) item = false) as -> by (vm_compute; reflexivity).
    reflexivity.
  - vm_compute. reflexivity.
  - vm_compute. reflexivity.
Qed.


(** A file named [a[1]] is split into chunks that the pattern
    [a[1].zip.*] of the recovery does not match: the recovery finds
    nothing and the file, removed by the split, is not back. *)
Example round_trip_fails_on_glob_name :
  let file_path := ["data"; "a[1]"] in
  let split := @compress_and_split stored_zip file_path true false Demo.glob_named in
  let recovery := @recover_file stored_zip ["data"; "a[1].dir"] false false split.1 in
  split.2 = Ok tt ∧
  fs split.1 !! ["data"; "a[1].dir"; "a[1].zip.1"] ≠ None ∧
  recovery.2 = Ok tt ∧
  stdout recovery.1 =
    ["Processing /data/a[1] (size: 1048577 bytes)";
     "Recovering a[1] from /data/a[1].dir";
     "  Warning: No split files found in /data/a[1].dir"] ∧
  fs recovery.1 !! file_path = None.
Proof.
  intros file_path split recovery. split_and!.
  - vm_compute. reflexivity.
  - assert (fs_exists (fs split.1) ["data"; "a[1].dir"; "a[1].zip.1"] = true) as Hex
      by (vm_compute; reflexivity).
    unfold fs_exists in Hex. by destruct (fs split.1 !! _).
  - vm_compute. reflexivity.
  - vm_compute. reflexivity.
  - vm_compute. reflexivity.
Qed.
